(** * Regular polygons and polygon sequences ([polygons.py])

    A shallow embedding of the three classes of [polygons.py]
    ([Polygon], [PolygonsIterator], [Polygons]) and the properties the
    specification states about them.

    Modelling conventions.
    - Python [int] is [Z].
    - A Python exception is a value of [exn]; code that can raise returns
      a [result].  True division raises [ZeroDivisionError] on a zero
      divisor, list indexing raises [IndexError].
    - Objects are immutable values; the only mutable field of the program
      ([PolygonsIterator._index]) is threaded explicitly.
    - The classes are given twice.  Modules [Polygon], [PolygonsIterator]
      and [Polygons] take the circumradius as a real number; they carry
      the properties of construction, indexing, iteration, equality and
      ordering, which do not depend on how a float is rounded.  Module
      [Double] gives the numeric code on IEEE binary64 numbers, with
      rounding, overflow, underflow and NaN as the interpreter computes
      them; the properties of the measurements and of the efficiency
      query are stated there. *)

From Stdlib Require Import ZArith List Reals Lra Lia Bool String Floats.
From Stdlib Require Import Sorting.Sorted.
Import ListNotations.

Set Implicit Arguments.

(** ** Exceptions and results *)

Inductive exn : Set :=
| ValueError
| IndexError
| ZeroDivisionError
| StopIteration
| OverflowError.

Inductive result (A : Type) : Type :=
| Ok (a : A)
| Raise (e : exn).

Arguments Ok {A} a.
Arguments Raise {A} e.

Definition bind {A B : Type} (c : result A) (k : A -> result B) : result B :=
  match c with
  | Ok a => k a
  | Raise e => Raise e
  end.

Declare Scope py_scope.
Delimit Scope py_scope with py.
Notation "x <- c ;; k" := (bind c (fun x => k))
  (at level 61, c at next level, right associativity) : py_scope.
Open Scope py_scope.

(** [[f(x) for x in l]]: the elements are evaluated left to right and the
    first exception aborts the comprehension. *)
Fixpoint comprehension {A B : Type} (f : A -> result B) (l : list A)
  : result (list B) :=
  match l with
  | [] => Ok []
  | x :: l' => y <- f x ;; ys <- comprehension f l' ;; Ok (y :: ys)
  end.

(** ** Python built-ins used by the program *)

(** [a / b] on exact numbers ([Double.float_truediv] is the one that
    rounds). *)
Definition truediv (a b : R) : result R :=
  if Req_dec_T b 0 then Raise ZeroDivisionError else Ok (a / b)%R.

(** [range(lo, hi)]. *)
Definition range (lo hi : Z) : list Z :=
  map (fun k => (lo + Z.of_nat k)%Z) (seq 0 (Z.to_nat (hi - lo))).

(** [len(l)]. *)
Definition len {A : Type} (l : list A) : Z := Z.of_nat (List.length l).

(** [l[i]] for an integer [i]: a negative index counts from the end, and
    an index outside [-len(l) .. len(l)-1] raises [IndexError]. *)
Definition list_getitem {A : Type} (l : list A) (i : Z) : result A :=
  let j := if (i <? 0)%Z then (i + len l)%Z else i in
  if ((j <? 0) || (len l <=? j))%Z then Raise IndexError
  else match nth_error l (Z.to_nat j) with
       | Some x => Ok x
       | None => Raise IndexError
       end.

(** [sorted(l, key=..., reverse=...)] on already computed keys.  The
    built-in sort is stable and compares keys with [<] only; with
    [reverse=True] the list is reversed, sorted stably in ascending order
    and reversed again, which keeps elements with equal keys in their
    original order. *)
Section Sorted.
Variable A : Type.

Fixpoint insert (x : R * A) (l : list (R * A)) : list (R * A) :=
  match l with
  | [] => [x]
  | y :: l' =>
      if Rlt_dec (fst y) (fst x) then y :: insert x l' else x :: y :: l'
  end.

Definition sort_ascending (l : list (R * A)) : list (R * A) :=
  fold_right insert [] l.

Definition sorted_keyed (l : list (R * A)) (reverse : bool) : list (R * A) :=
  if reverse then rev (sort_ascending (rev l)) else sort_ascending l.

Definition sorted (l : list A) (key : A -> result R) (reverse : bool)
  : result (list A) :=
  keyed <- comprehension (fun x => k <- key x ;; Ok (k, x)) l ;;
  Ok (map snd (sorted_keyed keyed reverse)).
End Sorted.

(** ** Values a comparison operand may be *)

Inductive comparison_result : Set :=
| Bool (b : bool)
| NotImplemented.

(** ** class Polygon

    The circumradius is a real number here and the measurements are the
    exact formulas; they serve to tell which exceptions an accessor can
    raise.  What the measurements compute on doubles is in [Double]. *)

Module Polygon.

Record t : Type := mk { _n : Z; _R : R }.

(** An arbitrary Python object, as far as [isinstance] can tell. *)
Inductive object : Type :=
| PolygonObj (p : t)
| IntObj (z : Z)
| FloatObj (r : R)
| StrObj (s : string)
| NoneObj.

Definition isinstance_Polygon (o : object) : option t :=
  match o with
  | PolygonObj p => Some p
  | _ => None
  end.

Definition __init__ (n : Z) (R : R) : result t :=
  if (n <? 3)%Z then Raise ValueError
  else Ok {| _n := n; _R := R |}.

Definition count_vertices (self : t) : Z := _n self.

Definition count_edges (self : t) : Z := _n self.

Definition circumradius (self : t) : R := _R self.

Definition interior_angle (self : t) : result R :=
  truediv (IZR ((_n self - 2) * 180)) (IZR (_n self)).

Definition side_length (self : t) : result R :=
  x <- truediv PI (IZR (_n self)) ;;
  Ok (2 * _R self * sin x)%R.

Definition apothem (self : t) : result R :=
  x <- truediv PI (IZR (_n self)) ;;
  Ok (_R self * cos x)%R.

Definition area (self : t) : result R :=
  h <- truediv (IZR (_n self)) 2 ;;
  s <- side_length self ;;
  a <- apothem self ;;
  Ok (h * s * a)%R.

Definition perimeter (self : t) : result R :=
  s <- side_length self ;;
  Ok (IZR (_n self) * s)%R.

Definition __eq__ (self : t) (other : object) : comparison_result :=
  match isinstance_Polygon other with
  | Some other =>
      Bool ((count_edges self =? count_edges other)%Z
            && (if Req_dec_T (circumradius self) (circumradius other)
                then true else false))
  | None => NotImplemented
  end.

Definition __gt__ (self : t) (other : object) : comparison_result :=
  match isinstance_Polygon other with
  | Some other => Bool (count_vertices other <? count_vertices self)%Z
  | None => NotImplemented
  end.

End Polygon.

(** ** class PolygonsIterator *)

Module PolygonsIterator.

Record t : Type := mk { _polygons : list Polygon.t; _index : Z }.

Definition __init__ (polygons : list Polygon.t) : t :=
  {| _polygons := polygons; _index := 0 |}.

Definition __iter__ (self : t) : t := self.

(** [__next__] returns the outcome together with the iterator after the
    call; only a successful call advances [_index]. *)
Definition __next__ (self : t) : result Polygon.t * t :=
  if (_index self <? len (_polygons self))%Z then
    match list_getitem (_polygons self) (_index self) with
    | Ok polygon =>
        (Ok polygon,
         {| _polygons := _polygons self; _index := _index self + 1 |})
    | Raise e => (Raise e, self)
    end
  else (Raise StopIteration, self).

(** A [for] loop over the iterator ([list(it)]): call [__next__] until
    [StopIteration]; any other exception propagates.  [None] means the
    fuel ran out before the loop ended. *)
Fixpoint consume (fuel : nat) (it : t)
  : option (result (list Polygon.t) * t) :=
  match fuel with
  | O => None
  | S fuel' =>
      match __next__ it with
      | (Ok p, it') =>
          match consume fuel' it' with
          | Some (Ok ps, it'') => Some (Ok (p :: ps), it'')
          | other => other
          end
      | (Raise StopIteration, it') => Some (Ok [], it')
      | (Raise e, it') => Some (Raise e, it')
      end
  end.

End PolygonsIterator.

(** ** class Polygons *)

Module Polygons.

Record t : Type :=
  mk { _m : Z; _R : R; _polygons : list Polygon.t }.

Definition __init__ (m : Z) (R : R) : result t :=
  if (m <? 3)%Z then Raise ValueError
  else
    polygons <- comprehension (fun i => Polygon.__init__ i R)
                              (range 3 (m + 1)) ;;
    Ok {| _m := m; _R := R; _polygons := polygons |}.

Definition __len__ (self : t) : Z := (_m self - 2)%Z.

Definition __iter__ (self : t) : PolygonsIterator.t :=
  PolygonsIterator.__init__ (_polygons self).

Definition __getitem__ (self : t) (index : Z) : result Polygon.t :=
  list_getitem (_polygons self) index.

(** The sort key [lambda p: p.area / p.perimeter]. *)
Definition efficiency (p : Polygon.t) : result R :=
  a <- Polygon.area p ;;
  q <- Polygon.perimeter p ;;
  truediv a q.

Definition max_efficiency_polygon (self : t) : result Polygon.t :=
  sorted_polygons <- sorted (_polygons self) efficiency true ;;
  list_getitem sorted_polygons 0.

End Polygons.

(** * The numeric code on IEEE doubles

    The classes once more, with Python's [float] as the binary64 numbers
    of [PrimFloat]: every product and quotient is rounded to the nearest
    double (ties to even), overflows to an infinity and may yield NaN,
    as the interpreter computes them.  The conversions follow CPython:
    an [int] operand of a float operation is converted to the nearest
    double and raises [OverflowError] when that is out of range; [/] on
    two ints is the correctly rounded quotient; [/] raises
    [ZeroDivisionError] on a zero divisor.  [math.sin] and [math.cos]
    belong to the C library and are parameters of the model; they are
    applied to [math.pi / n] only, which is finite, so they never
    raise.  The circumradius is a double (an int circumradius within the
    range of doubles acts as its double in every operation of the
    code). *)

Module Double.

(** [math.pi]. *)
Definition pi : float := 0x1.921fb54442d18p+1%float.

Definition Z2SF (z : Z) : spec_float :=
  match z with
  | Z0 => S754_zero false
  | Zpos p => S754_finite false p 0
  | Zneg p => S754_finite true p 0
  end.

(** An int as a float operand: the nearest double, ties to even, and
    [OverflowError] when the int is too large for a double. *)
Definition float_of_int (n : Z) : result float :=
  let f := SF2Prim (binary_normalize prec emax n 0 false) in
  if is_infinity f then Raise OverflowError else Ok f.

(** The double of an int below [2^53] in absolute value, which is
    exact. *)
Definition exact_float (z : Z) : float :=
  if (z <? 0)%Z then (- of_uint63 (Uint63.of_Z (- z)))%float
  else of_uint63 (Uint63.of_Z z).

(** [a / b] on two ints: when both fit 53 bits the quotient of their
    doubles, otherwise the exact quotient rounded once; an infinite
    result is an [OverflowError]. *)
Definition int_truediv (a b : Z) : result float :=
  if (b =? 0)%Z then Raise ZeroDivisionError
  else if ((Z.abs a <? 2 ^ 53) && (Z.abs b <? 2 ^ 53))%Z
       then Ok (exact_float a / exact_float b)%float
       else
         let q := SF2Prim (SFdiv prec emax (Z2SF a) (Z2SF b)) in
         if is_infinity q then Raise OverflowError else Ok q.

(** [a / b] on two floats. *)
Definition float_truediv (a b : float) : result float :=
  if (b =? 0)%float then Raise ZeroDivisionError else Ok (a / b)%float.

(** [sorted(l, key=..., reverse=...)] on float keys: the stable
    insertion sort with [<] on doubles.  It is the built-in's result
    whenever [<] orders the keys (no NaN among them), and also when no
    key is less than another. *)
Section Sorted.
Variable A : Type.

Fixpoint insert (x : float * A) (l : list (float * A)) : list (float * A) :=
  match l with
  | [] => [x]
  | y :: l' =>
      if (fst y <? fst x)%float then y :: insert x l' else x :: y :: l'
  end.

Definition sort_ascending (l : list (float * A)) : list (float * A) :=
  fold_right insert [] l.

Definition sorted_keyed (l : list (float * A)) (reverse : bool)
  : list (float * A) :=
  if reverse then rev (sort_ascending (rev l)) else sort_ascending l.

Definition sorted (l : list A) (key : A -> result float) (reverse : bool)
  : result (list A) :=
  keyed <- comprehension (fun x => k <- key x ;; Ok (k, x)) l ;;
  Ok (map snd (sorted_keyed keyed reverse)).
End Sorted.

Module Polygon.

Record t : Type := mk { _n : Z; _R : float }.

Definition __init__ (n : Z) (R : float) : result t :=
  if (n <? 3)%Z then Raise ValueError
  else Ok {| _n := n; _R := R |}.

Definition count_edges (self : t) : Z := _n self.

Definition circumradius (self : t) : float := _R self.

Definition interior_angle (self : t) : result float :=
  int_truediv ((_n self - 2) * 180) (_n self).

Section Libm.
Variables math_sin math_cos : float -> float.

(** [math.pi / self._n]. *)
Definition half_angle (self : t) : result float :=
  n <- float_of_int (_n self) ;;
  float_truediv pi n.

Definition side_length (self : t) : result float :=
  x <- half_angle self ;;
  Ok (2 * _R self * math_sin x)%float.

Definition apothem (self : t) : result float :=
  x <- half_angle self ;;
  Ok (_R self * math_cos x)%float.

Definition area (self : t) : result float :=
  h <- int_truediv (_n self) 2 ;;
  s <- side_length self ;;
  a <- apothem self ;;
  Ok (h * s * a)%float.

Definition perimeter (self : t) : result float :=
  s <- side_length self ;;
  n <- float_of_int (_n self) ;;
  Ok (n * s)%float.
End Libm.

End Polygon.

Module Polygons.

Record t : Type :=
  mk { _m : Z; _R : float; _polygons : list Polygon.t }.

Definition __init__ (m : Z) (R : float) : result t :=
  if (m <? 3)%Z then Raise ValueError
  else
    polygons <- comprehension (fun i => Polygon.__init__ i R)
                              (range 3 (m + 1)) ;;
    Ok {| _m := m; _R := R; _polygons := polygons |}.

Definition __len__ (self : t) : Z := (_m self - 2)%Z.

Definition __getitem__ (self : t) (index : Z) : result Polygon.t :=
  list_getitem (_polygons self) index.

Section Libm.
Variables math_sin math_cos : float -> float.

(** The sort key [lambda p: p.area / p.perimeter]. *)
Definition efficiency (p : Polygon.t) : result float :=
  a <- Polygon.area math_sin math_cos p ;;
  q <- Polygon.perimeter math_sin p ;;
  float_truediv a q.

Definition max_efficiency_polygon (self : t) : result Polygon.t :=
  sorted_polygons <- sorted (_polygons self) efficiency true ;;
  list_getitem sorted_polygons 0.
End Libm.

End Polygons.

End Double.

(** ** Notions used to state the properties *)

(** The list a successfully constructed sequence owns. *)
Definition members (m : Z) (R : R) : list Polygon.t :=
  map (fun i => Polygon.mk i R) (range 3 (m + 1)).

(** The iterator after [k] calls of [__next__]. *)
Fixpoint advance (k : nat) (it : PolygonsIterator.t) : PolygonsIterator.t :=
  match k with
  | O => it
  | S k' => snd (PolygonsIterator.__next__ (advance k' it))
  end.

(** ** Notions used to state the properties on doubles *)

(** The list a successfully constructed sequence owns. *)
Definition double_members (m : Z) (R : float) : list Double.Polygon.t :=
  map (fun i => Double.Polygon.mk i R) (range 3 (m + 1)).

(** The alternative the specification allows for the efficiency query:
    return the member with the largest edge count, [s[len(s) - 1]]. *)
Definition largest_edge_count_member (s : Double.Polygons.t)
  : result Double.Polygon.t :=
  Double.Polygons.__getitem__ s (Double.Polygons.__len__ s - 1).

Section Ratios.
Variables math_sin math_cos : float -> float.

(** [ratio_lt q p]: both ratios [area / perimeter] are computed and the
    one of [q] is less than the one of [p] in the order of doubles;
    [ratio_le] likewise with [<=]. *)
Definition ratio_lt (q p : Double.Polygon.t) : Prop :=
  exists kq kp,
    Double.Polygons.efficiency math_sin math_cos q = Ok kq
    /\ Double.Polygons.efficiency math_sin math_cos p = Ok kp
    /\ (kq <? kp)%float = true.

Definition ratio_le (q p : Double.Polygon.t) : Prop :=
  exists kq kp,
    Double.Polygons.efficiency math_sin math_cos q = Ok kq
    /\ Double.Polygons.efficiency math_sin math_cos p = Ok kp
    /\ (kq <=? kp)%float = true.

(** Every ratio of the list is computed without an exception and is a
    number (not NaN). *)
Definition ratios_are_numbers (l : list Double.Polygon.t) : Prop :=
  Forall (fun q => exists k,
              Double.Polygons.efficiency math_sin math_cos q = Ok k
              /\ is_nan k = false) l.
End Ratios.

Section DoubleKeyedLists.
Variable A : Type.

Fixpoint last_opt (l : list (float * A)) : option (float * A) :=
  match l with
  | [] => None
  | x :: l' =>
      match last_opt l' with
      | None => Some x
      | Some z => Some z
      end
  end.

Definition key_le (x y : float * A) : Prop := (fst x <=? fst y)%float = true.

(** Every key is a number (not NaN). *)
Definition numbers (l : list (float * A)) : Prop :=
  Forall (fun y => is_nan (fst y) = false) l.

(** [x] is the first element of [l] whose key is the greatest. *)
Definition first_max (l : list (float * A)) (x : float * A) : Prop :=
  exists l1 l2,
    l = l1 ++ x :: l2
    /\ Forall (fun y => (fst y <? fst x)%float = true) l1
    /\ Forall (fun y => (fst y <=? fst x)%float = true) l2.

(** [x] is the last element of [l] whose key is the greatest. *)
Definition last_max (l : list (float * A)) (x : float * A) : Prop :=
  exists l1 l2,
    l = l1 ++ x :: l2
    /\ Forall (fun y => (fst y <=? fst x)%float = true) l1
    /\ Forall (fun y => (fst y <? fst x)%float = true) l2.
End DoubleKeyedLists.

(** An infinity or NaN. *)
Definition unbounded (x : float) : Prop :=
  x = infinity \/ x = neg_infinity \/ x = nan.

(** The interior angles [(n - 2) * 180 / n] of [k] successive edge
    counts from [n] on are each greater than the one before ([prev]
    before the first) and less than 180. *)
Fixpoint angles_increase (k : nat) (n : Z) (prev : float) : bool :=
  match k with
  | O => true
  | S k' =>
      let a := (Double.exact_float ((n - 2) * 180) / Double.exact_float n)%float in
      (prev <? a)%float && (a <? 180)%float && angles_increase k' (n + 1) a
  end.

(** What the C library returns at the arguments [math.pi / n],
    [n = 3 .. 13]: pairs of an argument and the value there (each is
    the double nearest to the exact sine or cosine of the argument). *)
Definition sin_table : list (float * float) :=
  [ (0x1.0c152382d7365p+0, 0x1.bb67ae8584caap-1);
    (0x1.921fb54442d18p-1, 0x1.6a09e667f3bccp-1);
    (0x1.41b2f769cf0e0p-1, 0x1.2cf2304755a5ep-1);
    (0x1.0c152382d7365p-1, 0x1.fffffffffffffp-2);
    (0x1.cb91f3bbba140p-2, 0x1.bc4c04d71abc1p-2);
    (0x1.921fb54442d18p-2, 0x1.87de2a6aea963p-2);
    (0x1.657184ae74487p-2, 0x1.5e3a8748a0bf5p-2);
    (0x1.41b2f769cf0e0p-2, 0x1.3c6ef372fe94fp-2);
    (0x1.247426bd47de3p-2, 0x1.207e7fd768dbfp-2);
    (0x1.0c152382d7365p-2, 0x1.0907dc1930690p-2);
    (0x1.eeebf2ca2ada7p-3, 0x1.ea1e54bc48dbep-3) ]%float.

Definition cos_table : list (float * float) :=
  [ (0x1.0c152382d7365p+0, 0x1.0000000000001p-1);
    (0x1.921fb54442d18p-1, 0x1.6a09e667f3bcdp-1);
    (0x1.41b2f769cf0e0p-1, 0x1.9e3779b97f4a8p-1);
    (0x1.0c152382d7365p-1, 0x1.bb67ae8584cabp-1);
    (0x1.cb91f3bbba140p-2, 0x1.cd4bca9cb5c71p-1);
    (0x1.921fb54442d18p-2, 0x1.d906bcf328d46p-1);
    (0x1.657184ae74487p-2, 0x1.e11f642522d1cp-1);
    (0x1.41b2f769cf0e0p-2, 0x1.e6f0e134454ffp-1);
    (0x1.247426bd47de3p-2, 0x1.eb42a9bcd5057p-1);
    (0x1.0c152382d7365p-2, 0x1.ee8dd4748bf15p-1);
    (0x1.eeebf2ca2ada7p-3, 0x1.f11f493053d00p-1) ]%float.

(** [f] returns the tabulated values. *)
Definition agrees (f : float -> float) (table : list (float * float)) : Prop :=
  Forall (fun entry => f (fst entry) = snd entry) table.

(** The function that a table describes (NaN elsewhere). *)
Fixpoint lookup (table : list (float * float)) (x : float) : float :=
  match table with
  | [] => nan
  | (a, b) :: rest => if (a =? x)%float then b else lookup rest x
  end.

(** * Properties *)

Unset Implicit Arguments.

(** ** Built-ins *)

Lemma len_nonneg {A : Type} (l : list A) : (0 <= len l)%Z.
Proof. unfold len. lia. Qed.

Lemma comprehension_map {A B : Type} (f : A -> result B) (g : A -> B)
      (l : list A) :
  (forall x, In x l -> f x = Ok (g x)) ->
  comprehension f l = Ok (map g l).
Proof.
  induction l as [| x l IH]; intros Hf; simpl.
  - reflexivity.
  - rewrite (Hf x) by (left; reflexivity). simpl.
    rewrite IH by (intros y Hy; apply Hf; right; exact Hy).
    reflexivity.
Qed.

Lemma range_length (lo hi : Z) :
  List.length (range lo hi) = Z.to_nat (hi - lo).
Proof. unfold range. rewrite length_map, length_seq. reflexivity. Qed.

Lemma range_nth (lo hi : Z) (k : nat) :
  (k < Z.to_nat (hi - lo))%nat ->
  nth_error (range lo hi) k = Some (lo + Z.of_nat k)%Z.
Proof.
  intros Hk. unfold range.
  rewrite nth_error_map, nth_error_seq.
  destruct (Nat.ltb_spec k (Z.to_nat (hi - lo))); [reflexivity | lia].
Qed.

Lemma range_In (lo hi x : Z) :
  In x (range lo hi) <-> (lo <= x < hi)%Z.
Proof.
  unfold range. rewrite in_map_iff. split.
  - intros [k [<- Hk]]. apply in_seq in Hk. lia.
  - intros Hx. exists (Z.to_nat (x - lo)). split; [lia |].
    apply in_seq. lia.
Qed.

(** Indexing with an in-range non-negative index reads that position. *)
Lemma list_getitem_nonneg {A : Type} (l : list A) (i : Z) :
  (0 <= i < len l)%Z ->
  exists x, nth_error l (Z.to_nat i) = Some x /\ list_getitem l i = Ok x.
Proof.
  intros Hi. unfold list_getitem.
  destruct (Z.ltb_spec i 0); [lia |].
  destruct (Z.ltb_spec i 0); [lia |].
  destruct (Z.leb_spec (len l) i); [lia |]. simpl.
  destruct (nth_error l (Z.to_nat i)) as [x |] eqn:Hnth.
  - exists x. split; reflexivity.
  - apply nth_error_None in Hnth. unfold len in *. lia.
Qed.

(** Indexing with an in-range negative index counts from the end. *)
Lemma list_getitem_negative {A : Type} (l : list A) (i : Z) :
  (- len l <= i < 0)%Z ->
  exists x, nth_error l (Z.to_nat (len l + i)) = Some x
            /\ list_getitem l i = Ok x.
Proof.
  intros Hi. unfold list_getitem.
  destruct (Z.ltb_spec i 0); [| lia].
  destruct (Z.ltb_spec (i + len l) 0); [lia |].
  destruct (Z.leb_spec (len l) (i + len l)); [lia |]. simpl.
  replace (len l + i)%Z with (i + len l)%Z by lia.
  destruct (nth_error l (Z.to_nat (i + len l))) as [x |] eqn:Hnth.
  - exists x. split; reflexivity.
  - apply nth_error_None in Hnth. unfold len in *. lia.
Qed.

(** Indexing raises nothing but [IndexError], and raises it exactly
    outside [-len(l) .. len(l)-1]. *)
Lemma list_getitem_raises {A : Type} (l : list A) (i : Z) (e : exn) :
  list_getitem l i = Raise e ->
  e = IndexError /\ (i < - len l \/ len l <= i)%Z.
Proof.
  intros H.
  destruct (Z_lt_ge_dec i (- len l)) as [Hlo | Hlo].
  - unfold list_getitem in H.
    destruct (Z.ltb_spec i 0); [| pose proof (len_nonneg l); lia].
    destruct (Z.ltb_spec (i + len l) 0); [| lia].
    simpl in H. inversion H. split; [reflexivity | left; exact Hlo].
  - destruct (Z_lt_ge_dec i 0) as [Hneg | Hneg].
    + destruct (list_getitem_negative l i) as [x [_ Hx]]; [lia |].
      congruence.
    + destruct (Z_lt_ge_dec i (len l)) as [Hhi | Hhi].
      * destruct (list_getitem_nonneg l i) as [x [_ Hx]]; [lia |].
        congruence.
      * unfold list_getitem in H.
        destruct (Z.ltb_spec i 0); [lia |].
        destruct (Z.ltb_spec i 0); [lia |].
        destruct (Z.leb_spec (len l) i); [| lia].
        simpl in H. inversion H. split; [reflexivity | right; lia].
Qed.

Lemma list_getitem_out_of_range {A : Type} (l : list A) (i : Z) :
  (i < - len l \/ len l <= i)%Z -> list_getitem l i = Raise IndexError.
Proof.
  intros Hi. destruct (list_getitem l i) as [x | e] eqn:H.
  - exfalso. unfold list_getitem in H.
    pose proof (len_nonneg l).
    destruct (Z.ltb_spec i 0).
    + destruct (Z.ltb_spec (i + len l) 0); simpl in H; [discriminate |].
      destruct (Z.leb_spec (len l) (i + len l)); simpl in H;
        [discriminate | lia].
    + destruct (Z.ltb_spec i 0); [lia |].
      destruct (Z.leb_spec (len l) i); simpl in H; [discriminate | lia].
  - apply list_getitem_raises in H. destruct H as [-> _]. reflexivity.
Qed.

(** ** Construction *)

Lemma Polygon_init_ok (n : Z) (R : R) :
  (3 <= n)%Z -> Polygon.__init__ n R = Ok (Polygon.mk n R).
Proof.
  intros Hn. unfold Polygon.__init__.
  destruct (Z.ltb_spec n 3); [lia | reflexivity].
Qed.

Lemma Polygon_init_raises (n : Z) (R : R) :
  (n < 3)%Z -> Polygon.__init__ n R = Raise ValueError.
Proof.
  intros Hn. unfold Polygon.__init__.
  destruct (Z.ltb_spec n 3); [reflexivity | lia].
Qed.

Lemma Polygons_init_ok (m : Z) (R : R) :
  (3 <= m)%Z ->
  Polygons.__init__ m R = Ok (Polygons.mk m R (members m R)).
Proof.
  intros Hm. unfold Polygons.__init__.
  destruct (Z.ltb_spec m 3); [lia |].
  rewrite (comprehension_map _ (fun i => Polygon.mk i R)).
  - reflexivity.
  - intros x Hx. apply range_In in Hx. apply Polygon_init_ok. lia.
Qed.

Lemma Polygons_init_raises (m : Z) (R : R) :
  (m < 3)%Z -> Polygons.__init__ m R = Raise ValueError.
Proof.
  intros Hm. unfold Polygons.__init__.
  destruct (Z.ltb_spec m 3); [reflexivity | lia].
Qed.

Lemma Polygons_init_inv (m : Z) (R : R) (s : Polygons.t) :
  Polygons.__init__ m R = Ok s ->
  (3 <= m)%Z /\ s = Polygons.mk m R (members m R).
Proof.
  intros H. destruct (Z_lt_ge_dec m 3) as [Hm | Hm].
  - rewrite Polygons_init_raises in H by exact Hm. discriminate.
  - rewrite Polygons_init_ok in H by lia. inversion H. split; [lia | reflexivity].
Qed.

Lemma members_length (m : Z) (R : R) :
  (3 <= m)%Z -> len (members m R) = (m - 2)%Z.
Proof.
  intros Hm. unfold len, members. rewrite length_map, range_length. lia.
Qed.

Lemma members_nth (m : Z) (R : R) (k : nat) :
  (Z.of_nat k < m - 2)%Z ->
  nth_error (members m R) k = Some (Polygon.mk (3 + Z.of_nat k) R).
Proof.
  intros Hk. unfold members.
  rewrite nth_error_map, range_nth by lia. reflexivity.
Qed.

(** ** Indexed access *)

Lemma getitem_position (m : Z) (R : R) (i : Z) :
  (3 <= m)%Z -> (0 <= i < m - 2)%Z ->
  nth_error (members m R) (Z.to_nat i) = Some (Polygon.mk (3 + i) R)
  /\ list_getitem (members m R) i = Ok (Polygon.mk (3 + i) R).
Proof.
  intros Hm Hi.
  assert (Hnth : nth_error (members m R) (Z.to_nat i)
                 = Some (Polygon.mk (3 + i) R)).
  { rewrite members_nth by lia. rewrite Z2Nat.id by lia. reflexivity. }
  split; [exact Hnth |].
  destruct (list_getitem_nonneg (members m R) i) as [x [Hx ->]].
  - rewrite members_length by exact Hm. exact Hi.
  - congruence.
Qed.

Lemma getitem_from_end (m : Z) (R : R) (k : Z) :
  (3 <= m)%Z -> (1 <= k <= m - 2)%Z ->
  nth_error (members m R) (Z.to_nat (m - 2 - k))
  = Some (Polygon.mk (m + 1 - k) R)
  /\ list_getitem (members m R) (- k) = Ok (Polygon.mk (m + 1 - k) R).
Proof.
  intros Hm Hk.
  assert (Hnth : nth_error (members m R) (Z.to_nat (m - 2 - k))
                 = Some (Polygon.mk (m + 1 - k) R)).
  { rewrite members_nth by lia. rewrite Z2Nat.id by lia.
    f_equal. f_equal. lia. }
  split; [exact Hnth |].
  destruct (list_getitem_negative (members m R) (- k)) as [x [Hx ->]].
  - rewrite members_length by exact Hm. lia.
  - rewrite members_length in Hx by exact Hm.
    replace (m - 2 + - k)%Z with (m - 2 - k)%Z in Hx by lia.
    congruence.
Qed.

(** C1 (as stated) fails: the sequence built by [Polygons(3, 1)] has one
    member, and indexing it with [-1] returns that member instead of
    raising [IndexError], although [-1 < 0]. *)
Lemma C1_counterexample :
  Polygons.__init__ 3 1 = Ok (Polygons.mk 3 1 [Polygon.mk 3 1])
  /\ (-1 < 0)%Z
  /\ Polygons.__getitem__ (Polygons.mk 3 1 [Polygon.mk 3 1]) (-1)
     = Ok (Polygon.mk 3 1)
  /\ Polygons.__getitem__ (Polygons.mk 3 1 [Polygon.mk 3 1]) (-1)
     <> Raise IndexError.
Proof.
  repeat split; try reflexivity; try lia.
  intros H. discriminate H.
Qed.

(** C1 (amended): for a constructed sequence [s] and an integer [index],
    [s[index]] raises [IndexError] exactly when [index < -len(s)] or
    [index >= len(s)]; in particular [s[len(s)]] raises [IndexError],
    while [s[-1]] returns the last member; and for
    [0 <= index < len(s)] it returns the polygon at that zero-based
    position of the internal list, which has [index + 3] edges. *)
Theorem C1_getitem_index_error (m : Z) (R : R) (s : Polygons.t) (index : Z) :
  Polygons.__init__ m R = Ok s ->
  (Polygons.__getitem__ s index = Raise IndexError
   <-> (index < - Polygons.__len__ s \/ Polygons.__len__ s <= index)%Z)
  /\ Polygons.__getitem__ s (Polygons.__len__ s) = Raise IndexError
  /\ Polygons.__getitem__ s (-1) = Ok (Polygon.mk m R)
  /\ ((0 <= index < Polygons.__len__ s)%Z ->
      nth_error (Polygons._polygons s) (Z.to_nat index)
      = Some (Polygon.mk (3 + index) R)
      /\ Polygons.__getitem__ s index = Ok (Polygon.mk (3 + index) R)).
Proof.
  intros Hs. apply Polygons_init_inv in Hs. destruct Hs as [Hm ->].
  unfold Polygons.__getitem__, Polygons.__len__. simpl.
  pose proof (members_length m R Hm) as Hlen.
  repeat split.
  - intros H. apply list_getitem_raises in H. rewrite Hlen in H. tauto.
  - intros H. apply list_getitem_out_of_range. rewrite Hlen. exact H.
  - apply list_getitem_out_of_range. rewrite Hlen. right. lia.
  - destruct (getitem_from_end m R 1 Hm) as [_ H]; [lia |].
    replace (m + 1 - 1)%Z with m in H by lia. exact H.
  - apply getitem_position; tauto.
  - apply getitem_position; tauto.
Qed.

Lemma C1_getitem_index_error_witness :
  Polygons.__getitem__ (Polygons.mk 4 1 [Polygon.mk 3 1; Polygon.mk 4 1]) 2
  = Raise IndexError
  /\ Polygons.__getitem__ (Polygons.mk 4 1 [Polygon.mk 3 1; Polygon.mk 4 1]) (-1)
     = Ok (Polygon.mk 4 1).
Proof.
  pose proof (C1_getitem_index_error 4 1
                (Polygons.mk 4 1 [Polygon.mk 3 1; Polygon.mk 4 1]) 1
                eq_refl) as [_ [Hlen [Hlast _]]].
  split; [exact Hlen | exact Hlast].
Defined.

(** C2: for a constructed sequence [s] of length [L] and an integer [k]
    with [1 <= k <= L], [s[-k]] does not fail and returns the polygon at
    position [L - k]; [s[-1]] is the member with [m] edges, the largest
    edge count; and indexing raises only [IndexError], and only for
    [index >= L] or [index < -L]. *)
Theorem C2_getitem_negative_index (m : Z) (R : R) (s : Polygons.t) (k : Z) :
  Polygons.__init__ m R = Ok s ->
  (1 <= k <= Polygons.__len__ s)%Z ->
  (exists p,
      nth_error (Polygons._polygons s) (Z.to_nat (Polygons.__len__ s - k))
      = Some p
      /\ Polygons.__getitem__ s (- k) = Ok p)
  /\ (exists p,
         Polygons.__getitem__ s (-1) = Ok p
         /\ Polygon.count_edges p = m
         /\ Forall (fun q => (Polygon.count_edges q <= Polygon.count_edges p)%Z)
                   (Polygons._polygons s))
  /\ (forall index e,
         Polygons.__getitem__ s index = Raise e ->
         e = IndexError
         /\ (Polygons.__len__ s <= index \/ index < - Polygons.__len__ s)%Z).
Proof.
  intros Hs Hk. apply Polygons_init_inv in Hs. destruct Hs as [Hm ->].
  unfold Polygons.__getitem__, Polygons.__len__ in *. simpl in *.
  pose proof (members_length m R Hm) as Hlen.
  split; [| split].
  - exists (Polygon.mk (m + 1 - k) R). apply getitem_from_end; assumption.
  - exists (Polygon.mk m R). split; [| split].
    + destruct (getitem_from_end m R 1 Hm) as [_ H]; [lia |].
      replace (m + 1 - 1)%Z with m in H by lia. exact H.
    + reflexivity.
    + apply Forall_forall. intros q Hq. unfold members in Hq.
      apply in_map_iff in Hq. destruct Hq as [i [<- Hi]].
      apply range_In in Hi. simpl. lia.
  - intros index e H. apply list_getitem_raises in H.
    rewrite Hlen in H. tauto.
Qed.

Lemma C2_getitem_negative_index_witness :
  Polygons.__getitem__ (Polygons.mk 4 1 [Polygon.mk 3 1; Polygon.mk 4 1]) (-2)
  = Ok (Polygon.mk 3 1).
Proof.
  destruct (C2_getitem_negative_index 4 1
              (Polygons.mk 4 1 [Polygon.mk 3 1; Polygon.mk 4 1]) 2
              eq_refl ltac:(vm_compute; split; discriminate))
    as [[p [Hnth Hp]] _].
  vm_compute in Hnth. inversion Hnth. subst p. exact Hp.
Defined.

(** ** Which exceptions the accessors can raise *)

Lemma truediv_raises (a b : R) (e : exn) :
  truediv a b = Raise e -> e = ZeroDivisionError.
Proof.
  unfold truediv. destruct (Req_dec_T b 0); intros H; inversion H.
  reflexivity.
Qed.

Lemma truediv_ok (a b : R) :
  b <> 0%R -> truediv a b = Ok (a / b)%R.
Proof.
  intros Hb. unfold truediv. destruct (Req_dec_T b 0); [contradiction |].
  reflexivity.
Qed.

Lemma bind_raises {A B : Type} (c : result A) (k : A -> result B) (e : exn) :
  bind c k = Raise e ->
  c = Raise e \/ exists a, c = Ok a /\ k a = Raise e.
Proof.
  destruct c as [a | e']; simpl; intros H.
  - right. exists a. split; [reflexivity | exact H].
  - left. inversion H. reflexivity.
Qed.

(** Peel the binds of a raising computation down to the primitive that
    raised. *)
Ltac raised H :=
  repeat match type of H with
    | bind _ _ = Raise _ =>
        apply bind_raises in H; destruct H as [H | [? [_ H]]]
    | truediv _ _ = Raise _ => apply truediv_raises in H
    | list_getitem _ _ = Raise _ =>
        apply list_getitem_raises in H; destruct H as [H _]
    | Ok _ = Raise _ => discriminate H
    end.

Lemma side_length_raises (p : Polygon.t) (e : exn) :
  Polygon.side_length p = Raise e -> e = ZeroDivisionError.
Proof. unfold Polygon.side_length. intros H. raised H; exact H. Qed.

Lemma apothem_raises (p : Polygon.t) (e : exn) :
  Polygon.apothem p = Raise e -> e = ZeroDivisionError.
Proof. unfold Polygon.apothem. intros H. raised H; exact H. Qed.

Lemma area_raises (p : Polygon.t) (e : exn) :
  Polygon.area p = Raise e -> e = ZeroDivisionError.
Proof.
  unfold Polygon.area. intros H. raised H;
    first [ exact H
          | apply side_length_raises in H; exact H
          | apply apothem_raises in H; exact H ].
Qed.

Lemma perimeter_raises (p : Polygon.t) (e : exn) :
  Polygon.perimeter p = Raise e -> e = ZeroDivisionError.
Proof.
  unfold Polygon.perimeter. intros H. raised H;
    first [ exact H | apply side_length_raises in H; exact H ].
Qed.

Lemma efficiency_raises (p : Polygon.t) (e : exn) :
  Polygons.efficiency p = Raise e -> e = ZeroDivisionError.
Proof.
  unfold Polygons.efficiency. intros H. raised H;
    first [ exact H
          | apply area_raises in H; exact H
          | apply perimeter_raises in H; exact H ].
Qed.

Lemma comprehension_raises {A B : Type} (f : A -> result B) (l : list A)
      (e : exn) :
  comprehension f l = Raise e -> exists x, In x l /\ f x = Raise e.
Proof.
  induction l as [| x l IH]; simpl; intros H.
  - discriminate H.
  - destruct (f x) as [y |] eqn:Hfx; simpl in H.
    + destruct (comprehension f l) as [ys |] eqn:Hl; simpl in H.
      * discriminate H.
      * destruct (IH H) as [z [Hz Hfz]]. exists z. split; [right |]; assumption.
    + exists x. split; [left; reflexivity | congruence].
Qed.

Lemma max_efficiency_polygon_raises (s : Polygons.t) (e : exn) :
  Polygons.max_efficiency_polygon s = Raise e ->
  e = ZeroDivisionError \/ e = IndexError.
Proof.
  unfold Polygons.max_efficiency_polygon, sorted. intros H.
  apply bind_raises in H. destruct H as [H | [l [_ H]]].
  - apply bind_raises in H. destruct H as [H | [? [_ H]]]; [| discriminate H].
    apply comprehension_raises in H. destruct H as [x [_ H]].
    apply bind_raises in H. destruct H as [H | [? [_ H]]]; [| discriminate H].
    left. apply efficiency_raises in H. exact H.
  - right. apply list_getitem_raises in H. tauto.
Qed.

Lemma next_raises (it : PolygonsIterator.t) (e : exn) :
  fst (PolygonsIterator.__next__ it) = Raise e ->
  e = StopIteration \/ e = IndexError.
Proof.
  unfold PolygonsIterator.__next__.
  destruct (_ <? _)%Z.
  - destruct (list_getitem _ _) as [p | e'] eqn:Hget; simpl; intros H.
    + discriminate H.
    + inversion H; subst e'. right.
      apply list_getitem_raises in Hget. tauto.
  - simpl. intros H. inversion H. left. reflexivity.
Qed.

(** C5: constructing a polygon raises [ValueError] exactly when [n < 3]
    (so [n = 2] fails and [n = 3] succeeds) and otherwise succeeds;
    constructing a sequence raises [ValueError] exactly when [m < 3]
    and otherwise succeeds; and no accessor -- the polygon's
    measurements, and the sequence's indexing, iteration step and
    efficiency query -- ever raises [ValueError]. *)
Theorem C5_invalid_argument :
  (forall n R, Polygon.__init__ n R = Raise ValueError <-> (n < 3)%Z)
  /\ (forall n R, (3 <= n)%Z <-> exists p, Polygon.__init__ n R = Ok p)
  /\ (forall R, Polygon.__init__ 2 R = Raise ValueError)
  /\ (forall R, Polygon.__init__ 3 R = Ok (Polygon.mk 3 R))
  /\ (forall m R, Polygons.__init__ m R = Raise ValueError <-> (m < 3)%Z)
  /\ (forall m R, (3 <= m)%Z <-> exists s, Polygons.__init__ m R = Ok s)
  /\ (forall p : Polygon.t,
         Polygon.interior_angle p <> Raise ValueError
         /\ Polygon.side_length p <> Raise ValueError
         /\ Polygon.apothem p <> Raise ValueError
         /\ Polygon.area p <> Raise ValueError
         /\ Polygon.perimeter p <> Raise ValueError)
  /\ (forall (s : Polygons.t) (index : Z),
         Polygons.__getitem__ s index <> Raise ValueError
         /\ Polygons.max_efficiency_polygon s <> Raise ValueError
         /\ fst (PolygonsIterator.__next__ (Polygons.__iter__ s))
            <> Raise ValueError)
  /\ (forall it : PolygonsIterator.t,
         fst (PolygonsIterator.__next__ it) <> Raise ValueError).
Proof.
  repeat match goal with |- _ /\ _ => split end.
  - intros n R. split.
    + intros H. destruct (Z_lt_ge_dec n 3) as [Hn | Hn]; [exact Hn |].
      rewrite Polygon_init_ok in H by lia. discriminate H.
    + apply Polygon_init_raises.
  - intros n R. split.
    + intros Hn. eexists. apply Polygon_init_ok. exact Hn.
    + intros [p Hp]. destruct (Z_lt_ge_dec n 3) as [Hn | Hn]; [| lia].
      rewrite Polygon_init_raises in Hp by exact Hn. discriminate Hp.
  - intros R. apply Polygon_init_raises. lia.
  - intros R. apply Polygon_init_ok. lia.
  - intros m R. split.
    + intros H. destruct (Z_lt_ge_dec m 3) as [Hm | Hm]; [exact Hm |].
      rewrite Polygons_init_ok in H by lia. discriminate H.
    + apply Polygons_init_raises.
  - intros m R. split.
    + intros Hm. eexists. apply Polygons_init_ok. exact Hm.
    + intros [s Hs]. apply Polygons_init_inv in Hs. tauto.
  - intros p. repeat split; intros H.
    + apply truediv_raises in H. discriminate H.
    + apply side_length_raises in H. discriminate H.
    + apply apothem_raises in H. discriminate H.
    + apply area_raises in H. discriminate H.
    + apply perimeter_raises in H. discriminate H.
  - intros s index. repeat split; intros H.
    + apply list_getitem_raises in H. destruct H as [H _]. discriminate H.
    + apply max_efficiency_polygon_raises in H.
      destruct H as [H | H]; discriminate H.
    + apply next_raises in H. destruct H as [H | H]; discriminate H.
  - intros it H. apply next_raises in H.
    destruct H as [H | H]; discriminate H.
Qed.

(** ** The invariant of a sequence *)

(** C6: a sequence constructed with [m >= 3] and circumradius [R] owns a
    list of exactly [m - 2] polygons, [len] returns [m - 2], the edge
    counts of the members are [3, 4, ..., m] in this order, every member
    has circumradius [R]; construction succeeds for every [m >= 3]; and
    the only operation that carries the list in a mutable object, the
    iterator's [__next__], leaves the list as it is. *)
Theorem C6_sequence_invariant (m : Z) (R : R) :
  (3 <= m)%Z ->
  exists s,
    Polygons.__init__ m R = Ok s
    /\ len (Polygons._polygons s) = (m - 2)%Z
    /\ Polygons.__len__ s = (m - 2)%Z
    /\ map Polygon.count_edges (Polygons._polygons s) = range 3 (m + 1)
    /\ (forall k, (0 <= k < m - 2)%Z ->
                  exists p, nth_error (Polygons._polygons s) (Z.to_nat k) = Some p
                            /\ Polygon.count_edges p = (3 + k)%Z)
    /\ Forall (fun p => Polygon.circumradius p = R) (Polygons._polygons s)
    /\ (forall it,
           PolygonsIterator._polygons it = Polygons._polygons s ->
           PolygonsIterator._polygons (snd (PolygonsIterator.__next__ it))
           = Polygons._polygons s).
Proof.
  intros Hm. exists (Polygons.mk m R (members m R)).
  split; [apply Polygons_init_ok; exact Hm |]. simpl.
  split; [apply members_length; exact Hm |].
  split; [reflexivity |].
  split; [| split; [| split]].
  - unfold members. rewrite map_map. simpl. apply map_id.
  - intros k Hk. exists (Polygon.mk (3 + k) R).
    split; [| reflexivity]. apply getitem_position; assumption.
  - apply Forall_forall. intros p Hp. unfold members in Hp.
    apply in_map_iff in Hp. destruct Hp as [i [<- _]]. reflexivity.
  - intros it Hit. unfold PolygonsIterator.__next__.
    destruct (_ <? _)%Z; [| exact Hit].
    destruct (list_getitem _ _); simpl; exact Hit.
Qed.

Lemma C6_sequence_invariant_witness :
  exists s,
    Polygons.__init__ 5 1 = Ok s
    /\ len (Polygons._polygons s) = 3%Z
    /\ map Polygon.count_edges (Polygons._polygons s) = [3; 4; 5]%Z.
Proof.
  destruct (C6_sequence_invariant 5 1 ltac:(lia))
    as [s [Hs [Hlen [_ [Hedges _]]]]].
  exists s. split; [exact Hs |]. split; [exact Hlen | exact Hedges].
Defined.

(** ** Equality and ordering of polygons *)

Lemma eq_Polygon (p q : Polygon.t) :
  Polygon.__eq__ p (Polygon.PolygonObj q) = Bool true
  <-> Polygon.count_edges p = Polygon.count_edges q
      /\ Polygon.circumradius p = Polygon.circumradius q.
Proof.
  unfold Polygon.__eq__. simpl.
  destruct (Req_dec_T (Polygon.circumradius p) (Polygon.circumradius q))
    as [HR | HR];
    destruct (Z.eqb_spec (Polygon.count_edges p) (Polygon.count_edges q))
    as [Hn | Hn]; simpl; split; intros H;
    try discriminate H; try tauto; try (inversion H; discriminate).
Qed.

(** C8: [__eq__] is reflexive and symmetric on polygons; for polygons
    [p], [q] it answers a boolean, which is [True] exactly when the edge
    counts are equal and the circumradii are equal (no tolerance); and
    for an operand that is not a polygon it answers [NotImplemented]. *)
Theorem C8_equality :
  (forall p, Polygon.__eq__ p (Polygon.PolygonObj p) = Bool true)
  /\ (forall p q,
         Polygon.__eq__ p (Polygon.PolygonObj q)
         = Polygon.__eq__ q (Polygon.PolygonObj p))
  /\ (forall p q,
         Polygon.__eq__ p (Polygon.PolygonObj q) = Bool true
         <-> Polygon.count_edges p = Polygon.count_edges q
             /\ Polygon.circumradius p = Polygon.circumradius q)
  /\ (forall p q,
         Polygon.__eq__ p (Polygon.PolygonObj q) = Bool false
         <-> ~ (Polygon.count_edges p = Polygon.count_edges q
                /\ Polygon.circumradius p = Polygon.circumradius q))
  /\ (forall p z r str,
         Polygon.__eq__ p (Polygon.IntObj z) = NotImplemented
         /\ Polygon.__eq__ p (Polygon.FloatObj r) = NotImplemented
         /\ Polygon.__eq__ p (Polygon.StrObj str) = NotImplemented
         /\ Polygon.__eq__ p Polygon.NoneObj = NotImplemented)
  /\ (forall p o,
         Polygon.isinstance_Polygon o = None ->
         Polygon.__eq__ p o = NotImplemented).
Proof.
  assert (Hbool : forall p q,
             Polygon.__eq__ p (Polygon.PolygonObj q) = Bool false
             <-> Polygon.__eq__ p (Polygon.PolygonObj q) <> Bool true).
  { intros p q. unfold Polygon.__eq__. simpl.
    destruct (_ && _); split; intros H; congruence. }
  repeat match goal with |- _ /\ _ => split end.
  - intros p. apply eq_Polygon. split; reflexivity.
  - intros p q. unfold Polygon.__eq__. simpl. rewrite Z.eqb_sym.
    destruct (Req_dec_T (Polygon.circumradius p) (Polygon.circumradius q));
      destruct (Req_dec_T (Polygon.circumradius q) (Polygon.circumradius p));
      try reflexivity; exfalso; auto.
  - apply eq_Polygon.
  - intros p q. rewrite Hbool, eq_Polygon. tauto.
  - intros p z r str. repeat split.
  - intros p o Ho. unfold Polygon.__eq__. rewrite Ho. reflexivity.
Qed.

(** C9: for polygons [p], [q], [__gt__] answers [True] exactly when [p]
    has more edges than [q], whatever the circumradii; hence when [p]
    has more edges, [p > q] holds and [q > p] does not; and for an
    operand that is not a polygon it answers [NotImplemented]. *)
Theorem C9_ordering :
  (forall p q,
      Polygon.__gt__ p (Polygon.PolygonObj q) = Bool true
      <-> (Polygon.count_edges p > Polygon.count_edges q)%Z)
  /\ (forall p q,
         Polygon.__gt__ p (Polygon.PolygonObj q) = Bool false
         <-> ~ (Polygon.count_edges p > Polygon.count_edges q)%Z)
  /\ (forall n1 n2 R1 R2 R1' R2',
         Polygon.__gt__ (Polygon.mk n1 R1) (Polygon.PolygonObj (Polygon.mk n2 R2))
         = Polygon.__gt__ (Polygon.mk n1 R1')
                          (Polygon.PolygonObj (Polygon.mk n2 R2')))
  /\ (forall p q,
         (Polygon.count_edges p > Polygon.count_edges q)%Z ->
         Polygon.__gt__ p (Polygon.PolygonObj q) = Bool true
         /\ Polygon.__gt__ q (Polygon.PolygonObj p) = Bool false)
  /\ (forall p z r str,
         Polygon.__gt__ p (Polygon.IntObj z) = NotImplemented
         /\ Polygon.__gt__ p (Polygon.FloatObj r) = NotImplemented
         /\ Polygon.__gt__ p (Polygon.StrObj str) = NotImplemented
         /\ Polygon.__gt__ p Polygon.NoneObj = NotImplemented)
  /\ (forall p o,
         Polygon.isinstance_Polygon o = None ->
         Polygon.__gt__ p o = NotImplemented).
Proof.
  assert (Hgt : forall p q,
             Polygon.__gt__ p (Polygon.PolygonObj q)
             = Bool (Polygon.count_edges q <? Polygon.count_edges p)%Z)
    by reflexivity.
  repeat match goal with |- _ /\ _ => split end.
  - intros p q. rewrite Hgt. split; intros H.
    + inversion H as [Hlt]. apply Z.ltb_lt in Hlt. lia.
    + f_equal. apply Z.ltb_lt. lia.
  - intros p q. rewrite Hgt. split; intros H.
    + inversion H as [Hlt]. apply Z.ltb_ge in Hlt. lia.
    + f_equal. apply Z.ltb_ge. lia.
  - reflexivity.
  - intros p q H. rewrite !Hgt. split; f_equal.
    + apply Z.ltb_lt. lia.
    + apply Z.ltb_ge. lia.
  - intros p z r str. repeat split.
  - intros p o Ho. unfold Polygon.__gt__. rewrite Ho. reflexivity.
Qed.

(** ** Iteration *)

Lemma next_yields (l : list Polygon.t) (k : nat) (p : Polygon.t) :
  nth_error l k = Some p ->
  PolygonsIterator.__next__ (PolygonsIterator.mk l (Z.of_nat k))
  = (Ok p, PolygonsIterator.mk l (Z.of_nat (S k))).
Proof.
  intros Hnth. unfold PolygonsIterator.__next__.
  cbn [PolygonsIterator._polygons PolygonsIterator._index].
  assert (Hk : (k < List.length l)%nat)
    by (apply nth_error_Some; congruence).
  destruct (Z.ltb_spec (Z.of_nat k) (len l)); [| unfold len in *; lia].
  destruct (list_getitem_nonneg l (Z.of_nat k)) as [x [Hx ->]].
  - unfold len. lia.
  - rewrite Nat2Z.id in Hx.
    replace (Z.of_nat k + 1)%Z with (Z.of_nat (S k)) by lia.
    congruence.
Qed.

Lemma next_stops (l : list Polygon.t) (i : Z) :
  (len l <= i)%Z ->
  PolygonsIterator.__next__ (PolygonsIterator.mk l i)
  = (Raise StopIteration, PolygonsIterator.mk l i).
Proof.
  intros Hi. unfold PolygonsIterator.__next__. simpl.
  destruct (Z.ltb_spec i (len l)); [lia | reflexivity].
Qed.

Lemma skipn_nth {A : Type} (l : list A) (k : nat) (x : A) :
  nth_error l k = Some x -> skipn k l = x :: skipn (S k) l.
Proof.
  revert k. induction l as [| y l IH]; intros [| k] H; simpl in *;
    try discriminate H.
  - inversion H. reflexivity.
  - apply IH. exact H.
Qed.

(** A traversal started at position [k] yields the members from [k] on
    and leaves the cursor at the end, provided the fuel covers the
    remaining members and the final [StopIteration]. *)
Lemma consume_from (fuel : nat) (l : list Polygon.t) (k : nat) :
  (k <= List.length l)%nat ->
  (List.length l - k < fuel)%nat ->
  PolygonsIterator.consume fuel (PolygonsIterator.mk l (Z.of_nat k))
  = Some (Ok (skipn k l), PolygonsIterator.mk l (len l)).
Proof.
  revert k. induction fuel as [| fuel IH]; intros k Hk Hfuel; [lia |].
  simpl. destruct (nth_error l k) as [p |] eqn:Hnth.
  - rewrite (next_yields l k p Hnth).
    assert (Hlt : (k < List.length l)%nat)
      by (apply nth_error_Some; congruence).
    rewrite IH by lia. rewrite (skipn_nth l k p Hnth). reflexivity.
  - apply nth_error_None in Hnth.
    assert (k = List.length l) by lia. subst k.
    rewrite next_stops by (unfold len; lia).
    rewrite skipn_all. reflexivity.
Qed.

Lemma advance_within (l : list Polygon.t) (k : nat) :
  (k <= List.length l)%nat ->
  advance k (PolygonsIterator.__init__ l)
  = PolygonsIterator.mk l (Z.of_nat k).
Proof.
  induction k as [| k IH]; intros Hk.
  - reflexivity.
  - simpl. rewrite IH by lia.
    destruct (nth_error l k) as [p |] eqn:Hnth.
    + rewrite (next_yields l k p Hnth). reflexivity.
    + apply nth_error_None in Hnth. lia.
Qed.

(** C10: for a constructed sequence [s], [iter(s)] is a cursor at
    position 0; its [k]-th call of [__next__] returns [s[k]] for
    [0 <= k < len(s)], the next call raises [StopIteration], so that a
    traversal yields exactly the members in ascending edge-count order
    and stops; the traversal leaves the shared list as it was, and a
    second traversal, started after the first one is exhausted, yields
    the full sequence again. *)
Theorem C10_iteration (m : Z) (R : R) (s : Polygons.t) :
  Polygons.__init__ m R = Ok s ->
  PolygonsIterator._index (Polygons.__iter__ s) = 0%Z
  /\ (forall k : nat,
         (Z.of_nat k < Polygons.__len__ s)%Z ->
         fst (PolygonsIterator.__next__ (advance k (Polygons.__iter__ s)))
         = Polygons.__getitem__ s (Z.of_nat k)
         /\ Polygons.__getitem__ s (Z.of_nat k)
            = Ok (Polygon.mk (3 + Z.of_nat k) R))
  /\ fst (PolygonsIterator.__next__
            (advance (Z.to_nat (Polygons.__len__ s)) (Polygons.__iter__ s)))
     = Raise StopIteration
  /\ (forall fuel,
         (Z.to_nat (Polygons.__len__ s) < fuel)%nat ->
         exists exhausted,
           PolygonsIterator.consume fuel (Polygons.__iter__ s)
           = Some (Ok (Polygons._polygons s), exhausted)
           /\ fst (PolygonsIterator.__next__ exhausted) = Raise StopIteration
           /\ PolygonsIterator._polygons exhausted = Polygons._polygons s
           /\ PolygonsIterator.consume fuel
                (PolygonsIterator.__init__
                   (PolygonsIterator._polygons exhausted))
              = Some (Ok (Polygons._polygons s), exhausted)).
Proof.
  intros Hs. apply Polygons_init_inv in Hs. destruct Hs as [Hm ->].
  unfold Polygons.__iter__, Polygons.__getitem__, Polygons.__len__. simpl.
  pose proof (members_length m R Hm) as Hlen.
  assert (Hnat : Z.to_nat (m - 2) = List.length (members m R))
    by (unfold len in Hlen; lia).
  split; [reflexivity |]. split; [| split].
  - intros k Hk.
    destruct (getitem_position m R (Z.of_nat k) Hm) as [Hnth Hget]; [lia |].
    rewrite Nat2Z.id in Hnth.
    rewrite advance_within by lia.
    rewrite (next_yields _ _ _ Hnth), Hget. split; reflexivity.
  - rewrite advance_within by lia.
    rewrite next_stops by lia. reflexivity.
  - intros fuel Hfuel.
    exists (PolygonsIterator.mk (members m R) (len (members m R))).
    assert (Hrun : PolygonsIterator.consume fuel
                     (PolygonsIterator.__init__ (members m R))
                   = Some (Ok (members m R),
                           PolygonsIterator.mk (members m R)
                                               (len (members m R)))).
    { unfold PolygonsIterator.__init__.
      change 0%Z with (Z.of_nat 0).
      rewrite consume_from by lia. reflexivity. }
    repeat split; try exact Hrun.
    rewrite next_stops by lia. reflexivity.
Qed.

Lemma C10_iteration_witness :
  exists exhausted,
    PolygonsIterator.consume 3
      (Polygons.__iter__ (Polygons.mk 4 1 [Polygon.mk 3 1; Polygon.mk 4 1]))
    = Some (Ok [Polygon.mk 3 1; Polygon.mk 4 1], exhausted)
    /\ fst (PolygonsIterator.__next__ exhausted) = Raise StopIteration.
Proof.
  destruct (C10_iteration 4 1
              (Polygons.mk 4 1 [Polygon.mk 3 1; Polygon.mk 4 1]) eq_refl)
    as [_ [_ [_ Hrun]]].
  destruct (Hrun 3%nat ltac:(vm_compute; lia)) as [it [Hit [Hstop _]]].
  exists it. split; [exact Hit | exact Hstop].
Defined.

(** * Further properties of the code *)

(** ** Comparison operators as relations *)

Lemma gt_Polygon (p q : Polygon.t) :
  Polygon.__gt__ p (Polygon.PolygonObj q) = Bool true
  <-> (Polygon.count_edges q < Polygon.count_edges p)%Z.
Proof.
  unfold Polygon.__gt__. simpl. split; intros H.
  - inversion H as [Hlt]. apply Z.ltb_lt. exact Hlt.
  - f_equal. apply Z.ltb_lt. exact H.
Qed.

(** X9: on polygons [__gt__] is a strict order: no polygon is greater
    than itself, two polygons are never greater than each other, and
    the relation is transitive. *)
Theorem X9_gt_strict_order :
  (forall p, Polygon.__gt__ p (Polygon.PolygonObj p) = Bool false)
  /\ (forall p q,
         Polygon.__gt__ p (Polygon.PolygonObj q) = Bool true ->
         Polygon.__gt__ q (Polygon.PolygonObj p) = Bool false)
  /\ (forall p q r,
         Polygon.__gt__ p (Polygon.PolygonObj q) = Bool true ->
         Polygon.__gt__ q (Polygon.PolygonObj r) = Bool true ->
         Polygon.__gt__ p (Polygon.PolygonObj r) = Bool true).
Proof.
  split; [| split].
  - intros p. unfold Polygon.__gt__. simpl. rewrite Z.ltb_irrefl.
    reflexivity.
  - intros p q H. apply gt_Polygon in H.
    unfold Polygon.__gt__, Polygon.count_vertices, Polygon.count_edges in *.
    simpl. f_equal. apply Z.ltb_ge. lia.
  - intros p q r Hpq Hqr. apply gt_Polygon in Hpq, Hqr.
    apply gt_Polygon. lia.
Qed.

(** X10: on polygons [__eq__] is transitive and excludes [__gt__] in
    both directions; and two polygons of the same circumradius satisfy
    exactly one of [p > q], [p == q], [q > p]. *)
Theorem X10_eq_gt_trichotomy :
  (forall p q r,
      Polygon.__eq__ p (Polygon.PolygonObj q) = Bool true ->
      Polygon.__eq__ q (Polygon.PolygonObj r) = Bool true ->
      Polygon.__eq__ p (Polygon.PolygonObj r) = Bool true)
  /\ (forall p q,
         Polygon.__eq__ p (Polygon.PolygonObj q) = Bool true ->
         Polygon.__gt__ p (Polygon.PolygonObj q) = Bool false
         /\ Polygon.__gt__ q (Polygon.PolygonObj p) = Bool false)
  /\ (forall p q,
         Polygon.circumradius p = Polygon.circumradius q ->
         (Polygon.__gt__ p (Polygon.PolygonObj q) = Bool true
          /\ Polygon.__eq__ p (Polygon.PolygonObj q) = Bool false
          /\ Polygon.__gt__ q (Polygon.PolygonObj p) = Bool false)
         \/ (Polygon.__gt__ p (Polygon.PolygonObj q) = Bool false
             /\ Polygon.__eq__ p (Polygon.PolygonObj q) = Bool true
             /\ Polygon.__gt__ q (Polygon.PolygonObj p) = Bool false)
         \/ (Polygon.__gt__ p (Polygon.PolygonObj q) = Bool false
             /\ Polygon.__eq__ p (Polygon.PolygonObj q) = Bool false
             /\ Polygon.__gt__ q (Polygon.PolygonObj p) = Bool true)).
Proof.
  assert (Hgt_false : forall p q,
             (Polygon.count_edges p <= Polygon.count_edges q)%Z ->
             Polygon.__gt__ p (Polygon.PolygonObj q) = Bool false).
  { intros p q H.
    unfold Polygon.__gt__, Polygon.count_vertices, Polygon.count_edges in *.
    simpl. f_equal. apply Z.ltb_ge. lia. }
  assert (Heq_false : forall p q,
             Polygon.count_edges p <> Polygon.count_edges q ->
             Polygon.__eq__ p (Polygon.PolygonObj q) = Bool false).
  { intros p q H. unfold Polygon.__eq__. simpl.
    destruct (Z.eqb_spec (Polygon.count_edges p) (Polygon.count_edges q));
      [contradiction | reflexivity]. }
  split; [| split].
  - intros p q r Hpq Hqr. apply eq_Polygon in Hpq, Hqr.
    apply eq_Polygon. destruct Hpq, Hqr. split; congruence.
  - intros p q H. apply eq_Polygon in H. destruct H as [Hn _].
    split; apply Hgt_false; lia.
  - intros p q HR.
    destruct (Z.lt_trichotomy (Polygon.count_edges p)
                              (Polygon.count_edges q)) as [Hlt | [Heq | Hgt]].
    + right. right. split; [apply Hgt_false; lia |].
      split; [apply Heq_false; lia | apply gt_Polygon; exact Hlt].
    + right. left. split; [apply Hgt_false; lia |].
      split; [apply eq_Polygon; split; assumption | apply Hgt_false; lia].
    + left. split; [apply gt_Polygon; exact Hgt |].
      split; [apply Heq_false; lia | apply Hgt_false; lia].
Qed.

(** ** Indexing a constructed sequence *)

(** X11: the members of a constructed sequence are strictly ordered by
    position: for in-range indices [i], [j], [s[j] > s[i]] holds exactly
    when [i < j], and [s[i] == s[j]] exactly when [i = j]. *)
Theorem X11_members_ordered (m : Z) (R : R) (s : Polygons.t) (i j : Z) :
  Polygons.__init__ m R = Ok s ->
  (0 <= i < Polygons.__len__ s)%Z ->
  (0 <= j < Polygons.__len__ s)%Z ->
  exists p q,
    Polygons.__getitem__ s i = Ok p
    /\ Polygons.__getitem__ s j = Ok q
    /\ (Polygon.__gt__ q (Polygon.PolygonObj p) = Bool true <-> (i < j)%Z)
    /\ (Polygon.__eq__ p (Polygon.PolygonObj q) = Bool true <-> i = j).
Proof.
  intros Hs Hi Hj. apply Polygons_init_inv in Hs. destruct Hs as [Hm ->].
  unfold Polygons.__getitem__, Polygons.__len__ in *. simpl in *.
  exists (Polygon.mk (3 + i) R), (Polygon.mk (3 + j) R).
  split; [apply getitem_position; assumption |].
  split; [apply getitem_position; assumption |].
  rewrite gt_Polygon, eq_Polygon.
  cbn [Polygon.count_edges Polygon.circumradius Polygon._n Polygon._R].
  split; split; intros H; try lia.
  subst j. split; reflexivity.
Qed.

Lemma X11_members_ordered_witness :
  exists p q,
    Polygons.__getitem__ (Polygons.mk 4 1 [Polygon.mk 3 1; Polygon.mk 4 1]) 0
    = Ok p
    /\ Polygons.__getitem__ (Polygons.mk 4 1 [Polygon.mk 3 1; Polygon.mk 4 1]) 1
       = Ok q
    /\ Polygon.__gt__ q (Polygon.PolygonObj p) = Bool true.
Proof.
  destruct (X11_members_ordered 4 1
              (Polygons.mk 4 1 [Polygon.mk 3 1; Polygon.mk 4 1]) 0 1
              eq_refl ltac:(vm_compute; split; congruence)
              ltac:(vm_compute; split; congruence))
    as [p [q [Hp [Hq [Hgt _]]]]].
  exists p, q. split; [exact Hp |]. split; [exact Hq |].
  apply Hgt. reflexivity.
Defined.

(** X12: on a constructed sequence a non-negative in-range index [i]
    and the negative index [i - len(s)] read the same member. *)
Theorem X12_negative_index_agrees (m : Z) (R : R) (s : Polygons.t) (i : Z) :
  Polygons.__init__ m R = Ok s ->
  (0 <= i < Polygons.__len__ s)%Z ->
  Polygons.__getitem__ s (i - Polygons.__len__ s)
  = Polygons.__getitem__ s i
  /\ Polygons.__getitem__ s i = Ok (Polygon.mk (3 + i) R).
Proof.
  intros Hs Hi. apply Polygons_init_inv in Hs. destruct Hs as [Hm ->].
  unfold Polygons.__getitem__, Polygons.__len__ in *. simpl in *.
  destruct (getitem_position m R i Hm Hi) as [_ Hpos].
  destruct (getitem_from_end m R (m - 2 - i) Hm) as [_ Hneg]; [lia |].
  replace (- (m - 2 - i))%Z with (i - (m - 2))%Z in Hneg by lia.
  rewrite Hpos, Hneg. split; [| reflexivity].
  f_equal. f_equal. lia.
Qed.

Lemma X12_negative_index_agrees_witness :
  Polygons.__getitem__ (Polygons.mk 4 1 [Polygon.mk 3 1; Polygon.mk 4 1]) (-2)
  = Polygons.__getitem__ (Polygons.mk 4 1 [Polygon.mk 3 1; Polygon.mk 4 1]) 0.
Proof.
  destruct (X12_negative_index_agrees 4 1
              (Polygons.mk 4 1 [Polygon.mk 3 1; Polygon.mk 4 1]) 0
              eq_refl ltac:(vm_compute; split; congruence)) as [H _].
  exact H.
Defined.

(** X13: a sequence constructed with a larger maximum edge count and
    the same circumradius extends the smaller one: every in-range index
    of the smaller sequence reads the same polygon in both. *)
Theorem X13_sequence_prefix (m m' : Z) (R : R) (s s' : Polygons.t) (i : Z) :
  Polygons.__init__ m R = Ok s ->
  Polygons.__init__ m' R = Ok s' ->
  (m <= m')%Z ->
  (0 <= i < Polygons.__len__ s)%Z ->
  Polygons.__getitem__ s' i = Polygons.__getitem__ s i
  /\ exists p, Polygons.__getitem__ s i = Ok p.
Proof.
  intros Hs Hs' Hle Hi.
  apply Polygons_init_inv in Hs. destruct Hs as [Hm ->].
  apply Polygons_init_inv in Hs'. destruct Hs' as [Hm' ->].
  unfold Polygons.__getitem__, Polygons.__len__ in *. simpl in *.
  destruct (getitem_position m R i Hm Hi) as [_ H].
  destruct (getitem_position m' R i Hm') as [_ H']; [lia |].
  rewrite H, H'. split; [reflexivity | eexists; reflexivity].
Qed.

Lemma X13_sequence_prefix_witness :
  Polygons.__getitem__
    (Polygons.mk 4 1 [Polygon.mk 3 1; Polygon.mk 4 1]) 0
  = Polygons.__getitem__ (Polygons.mk 3 1 [Polygon.mk 3 1]) 0.
Proof.
  destruct (X13_sequence_prefix 3 4 1
              (Polygons.mk 3 1 [Polygon.mk 3 1])
              (Polygons.mk 4 1 [Polygon.mk 3 1; Polygon.mk 4 1]) 0
              eq_refl eq_refl ltac:(lia)
              ltac:(vm_compute; split; congruence)) as [H _].
  exact H.
Defined.

(** ** The iterator on its own *)

Lemma advance_stopped (it : PolygonsIterator.t) (k : nat) :
  PolygonsIterator.__next__ it = (Raise StopIteration, it) ->
  advance k it = it.
Proof.
  intros Hstop. induction k as [| k IH]; simpl.
  - reflexivity.
  - rewrite IH, Hstop. reflexivity.
Qed.

(** X14: an iterator over any list that has been advanced [k] times
    ([k] at most the length) yields, when traversed, exactly the
    remaining elements in order -- the whole list for [k = 0], nothing
    for the empty list -- and is then exhausted for good: every later
    [__next__] raises [StopIteration] and leaves the iterator as it
    is. *)
Theorem X14_iterator_resumes (l : list Polygon.t) (k fuel : nat) :
  (k <= List.length l)%nat ->
  (List.length l - k < fuel)%nat ->
  exists exhausted,
    PolygonsIterator.consume fuel
      (advance k (PolygonsIterator.__iter__ (PolygonsIterator.__init__ l)))
    = Some (Ok (skipn k l), exhausted)
    /\ PolygonsIterator.__next__ exhausted = (Raise StopIteration, exhausted)
    /\ (forall j,
           PolygonsIterator.__next__ (advance j exhausted)
           = (Raise StopIteration, exhausted)).
Proof.
  intros Hk Hfuel.
  exists (PolygonsIterator.mk l (len l)).
  assert (Hstop : PolygonsIterator.__next__ (PolygonsIterator.mk l (len l))
                  = (Raise StopIteration, PolygonsIterator.mk l (len l)))
    by (apply next_stops; lia).
  unfold PolygonsIterator.__iter__.
  rewrite advance_within by exact Hk.
  split; [apply consume_from; assumption |].
  split; [exact Hstop |].
  intros j. rewrite advance_stopped by exact Hstop. exact Hstop.
Qed.

Lemma X14_iterator_resumes_witness :
  exists exhausted,
    PolygonsIterator.consume 2
      (advance 1 (PolygonsIterator.__iter__
                    (PolygonsIterator.__init__
                       [Polygon.mk 3 1; Polygon.mk 4 1])))
    = Some (Ok [Polygon.mk 4 1], exhausted).
Proof.
  destruct (X14_iterator_resumes [Polygon.mk 3 1; Polygon.mk 4 1] 1 2
              ltac:(simpl; lia) ltac:(simpl; lia)) as [it [Hit _]].
  exists it. exact Hit.
Defined.

(** X15: one [__next__] step from a cursor inside [0 .. len]: the list
    is untouched and the cursor stays inside [0 .. len]; below the end
    the step returns the element under the cursor and advances by one;
    at the end it raises [StopIteration] and changes nothing.  In
    particular the inner indexing never raises [IndexError]. *)
Theorem X15_next_step (it : PolygonsIterator.t) :
  (0 <= PolygonsIterator._index it
   <= len (PolygonsIterator._polygons it))%Z ->
  PolygonsIterator._polygons (snd (PolygonsIterator.__next__ it))
  = PolygonsIterator._polygons it
  /\ (0 <= PolygonsIterator._index (snd (PolygonsIterator.__next__ it))
      <= len (PolygonsIterator._polygons it))%Z
  /\ ((PolygonsIterator._index it < len (PolygonsIterator._polygons it))%Z ->
      exists p,
        nth_error (PolygonsIterator._polygons it)
                  (Z.to_nat (PolygonsIterator._index it)) = Some p
        /\ PolygonsIterator.__next__ it
           = (Ok p,
              PolygonsIterator.mk (PolygonsIterator._polygons it)
                                  (PolygonsIterator._index it + 1)))
  /\ (PolygonsIterator._index it = len (PolygonsIterator._polygons it) ->
      PolygonsIterator.__next__ it = (Raise StopIteration, it))
  /\ fst (PolygonsIterator.__next__ it) <> Raise IndexError.
Proof.
  destruct it as [l i]. simpl. intros Hi.
  destruct (Z_lt_ge_dec i (len l)) as [Hlt | Hge].
  - destruct (list_getitem_nonneg l i) as [p [Hnth Hget]]; [lia |].
    assert (Hnext : PolygonsIterator.__next__ (PolygonsIterator.mk l i)
                    = (Ok p, PolygonsIterator.mk l (i + 1))).
    { unfold PolygonsIterator.__next__.
      cbn [PolygonsIterator._polygons PolygonsIterator._index].
      destruct (Z.ltb_spec i (len l)); [| lia].
      rewrite Hget. reflexivity. }
    rewrite Hnext. cbn [fst snd PolygonsIterator._polygons
                          PolygonsIterator._index].
    split; [reflexivity |]. split; [lia |].
    split; [intros _; exists p; split; [exact Hnth | reflexivity] |].
    split; [intros Heq; lia | discriminate].
  - rewrite next_stops by lia.
    cbn [fst snd PolygonsIterator._polygons PolygonsIterator._index].
    split; [reflexivity |]. split; [lia |].
    split; [intros Hlt; lia |].
    split; [reflexivity | discriminate].
Qed.

Lemma X15_next_step_witness :
  PolygonsIterator.__next__
    (PolygonsIterator.mk [Polygon.mk 3 1; Polygon.mk 4 1] 2)
  = (Raise StopIteration,
     PolygonsIterator.mk [Polygon.mk 3 1; Polygon.mk 4 1] 2).
Proof.
  destruct (X15_next_step
              (PolygonsIterator.mk [Polygon.mk 3 1; Polygon.mk 4 1] 2)
              ltac:(vm_compute; split; congruence))
    as [_ [_ [_ [Hend _]]]].
  apply Hend. reflexivity.
Defined.


(** * Properties of the numeric code on doubles *)

(** ** The order of doubles *)

Lemma SFcompare_antisym (x y : spec_float) :
  SFcompare y x = option_map CompOpp (SFcompare x y).
Proof.
  destruct x as [sx | sx | | sx mx ex], y as [sy | sy | | sy my ey];
    simpl; try reflexivity;
    repeat match goal with s : bool |- _ => destruct s end;
    simpl; try reflexivity;
    change PosDef.Pos.compare_cont with Pos.compare_cont;
    fold (Pos.compare mx my); fold (Pos.compare my mx);
    rewrite (Z.compare_antisym ex ey), (Pos.compare_antisym mx my);
    destruct (ex ?= ey)%Z; destruct (mx ?= my)%positive; reflexivity.
Qed.

Ltac compare_cases :=
  repeat match goal with
    | H : context [(?a ?= ?b)%Z] |- _ =>
        destruct (Z.compare_spec a b); try discriminate H
    | |- context [(?a ?= ?b)%Z] => destruct (Z.compare_spec a b)
    | H : context [Pos.compare ?a ?b] |- _ =>
        destruct (Pos.compare_spec a b); simpl in H; try discriminate H
    | |- context [Pos.compare ?a ?b] => destruct (Pos.compare_spec a b)
    end.

(** The three-way comparison of two finite-or-infinite values composes:
    all constructor and sign cases, the finite ones by the
    lexicographic order of exponent and mantissa. *)
Ltac compare_triple x y z :=
  destruct x as [? | ? | | ? ?mx ?ex], y as [? | ? | | ? ?my ?ey],
    z as [? | ? | | ? ?mz ?ez];
  simpl; try discriminate;
  repeat match goal with s : bool |- _ => destruct s end;
  simpl; try congruence;
  change PosDef.Pos.compare_cont with Pos.compare_cont;
  repeat match goal with
    | |- context [Pos.compare_cont Eq ?a ?b] => fold (Pos.compare a b)
    end;
  let H1 := fresh "H" in
  let H2 := fresh "H" in
  intros H1 H2; injection H1 as H1; injection H2 as H2; f_equal;
  subst; compare_cases; simpl in *; try congruence; try lia.

Lemma SFcompare_trans (x y z : spec_float) (c : comparison) :
  SFcompare x y = Some c -> SFcompare y z = Some c -> SFcompare x z = Some c.
Proof. compare_triple x y z. Qed.

Lemma SFcompare_Eq_l (x y z : spec_float) (c : comparison) :
  SFcompare x y = Some Eq -> SFcompare y z = Some c -> SFcompare x z = Some c.
Proof. compare_triple x y z. Qed.

Lemma SFcompare_Eq_r (x y z : spec_float) (c : comparison) :
  SFcompare x y = Some c -> SFcompare y z = Some Eq -> SFcompare x z = Some c.
Proof. compare_triple x y z. Qed.

Lemma SFcompare_refl (x : spec_float) :
  x <> S754_nan -> SFcompare x x = Some Eq.
Proof.
  destruct x as [s | s | | s m e]; simpl; intros H;
    try reflexivity; try congruence.
  - destruct s; reflexivity.
  - change PosDef.Pos.compare_cont with Pos.compare_cont.
    fold (Pos.compare m m).
    rewrite Z.compare_refl, Pos.compare_refl. destruct s; reflexivity.
Qed.

Lemma SFcompare_total (x y : spec_float) :
  x <> S754_nan -> y <> S754_nan -> exists c, SFcompare x y = Some c.
Proof.
  destruct x, y; simpl; intros Hx Hy; try congruence; eexists; reflexivity.
Qed.

Open Scope float_scope.

Lemma float_ltb_compare (x y : float) :
  (x <? y) = true <-> SFcompare (Prim2SF x) (Prim2SF y) = Some Lt.
Proof.
  rewrite FloatAxioms.ltb_spec. unfold SFltb.
  destruct (SFcompare _ _) as [[| |] |]; split; congruence.
Qed.

Lemma float_leb_compare (x y : float) :
  (x <=? y) = true
  <-> SFcompare (Prim2SF x) (Prim2SF y) = Some Lt
      \/ SFcompare (Prim2SF x) (Prim2SF y) = Some Eq.
Proof.
  rewrite FloatAxioms.leb_spec. unfold SFleb.
  destruct (SFcompare _ _) as [[| |] |]; split;
    try congruence; try tauto; intros [H | H]; congruence.
Qed.

Lemma is_nan_Prim2SF (x : float) :
  is_nan x = false <-> Prim2SF x <> S754_nan.
Proof.
  unfold is_nan. rewrite FloatAxioms.eqb_spec. unfold SFeqb. split.
  - intros H Hnan. rewrite Hnan in H. simpl in H. discriminate H.
  - intros H. rewrite SFcompare_refl by exact H. reflexivity.
Qed.

(** On numbers, "not less" is "greater or equal". *)
Lemma float_ltb_false_leb (x y : float) :
  is_nan x = false -> is_nan y = false ->
  (y <? x) = false -> (x <=? y) = true.
Proof.
  intros Hx Hy H. apply is_nan_Prim2SF in Hx, Hy.
  destruct (SFcompare_total _ _ Hx Hy) as [c Hc].
  apply float_leb_compare.
  assert (Hyx : SFcompare (Prim2SF y) (Prim2SF x) = Some (CompOpp c))
    by (rewrite SFcompare_antisym, Hc; reflexivity).
  destruct c; [right | left | exfalso]; try exact Hc.
  apply float_ltb_compare in Hyx. congruence.
Qed.

Lemma float_leb_ltb_false (x y : float) :
  (x <=? y) = true -> (y <? x) = false.
Proof.
  intros H. apply float_leb_compare in H.
  destruct (y <? x) eqn:Hlt; [| reflexivity].
  apply float_ltb_compare in Hlt. rewrite SFcompare_antisym in Hlt.
  destruct H as [H | H]; rewrite H in Hlt; discriminate Hlt.
Qed.

Lemma float_ltb_leb (x y : float) : (x <? y) = true -> (x <=? y) = true.
Proof.
  intros H. apply float_leb_compare. left. apply float_ltb_compare. exact H.
Qed.

Lemma float_ltb_leb_trans (x y z : float) :
  (x <? y) = true -> (y <=? z) = true -> (x <? z) = true.
Proof.
  intros Hxy Hyz. apply float_ltb_compare in Hxy.
  apply float_leb_compare in Hyz.
  apply float_ltb_compare. destruct Hyz as [Hyz | Hyz].
  - exact (SFcompare_trans _ _ _ _ Hxy Hyz).
  - exact (SFcompare_Eq_r _ _ _ _ Hxy Hyz).
Qed.

Lemma float_leb_ltb_trans (x y z : float) :
  (x <=? y) = true -> (y <? z) = true -> (x <? z) = true.
Proof.
  intros Hxy Hyz. apply float_leb_compare in Hxy.
  apply float_ltb_compare in Hyz.
  apply float_ltb_compare. destruct Hxy as [Hxy | Hxy].
  - exact (SFcompare_trans _ _ _ _ Hxy Hyz).
  - exact (SFcompare_Eq_l _ _ _ _ Hxy Hyz).
Qed.

Lemma float_leb_trans (x y z : float) :
  (x <=? y) = true -> (y <=? z) = true -> (x <=? z) = true.
Proof.
  intros Hxy Hyz. apply float_leb_compare in Hxy.
  destruct Hxy as [Hxy | Hxy].
  - apply float_ltb_leb. apply float_ltb_leb_trans with y; [| exact Hyz].
    apply float_ltb_compare. exact Hxy.
  - apply float_leb_compare in Hyz. apply float_leb_compare.
    destruct Hyz as [Hyz | Hyz]; [left | right];
      exact (SFcompare_Eq_l _ _ _ _ Hxy Hyz).
Qed.

Lemma float_ltb_trans (x y z : float) :
  (x <? y) = true -> (y <? z) = true -> (x <? z) = true.
Proof.
  intros Hxy Hyz. apply float_ltb_leb_trans with y; [exact Hxy |].
  apply float_ltb_leb. exact Hyz.
Qed.

Lemma float_leb_refl (x : float) : is_nan x = false -> (x <=? x) = true.
Proof.
  intros Hx. apply float_leb_compare. right. apply SFcompare_refl.
  apply is_nan_Prim2SF. exact Hx.
Qed.

(** ** Products and quotients of infinities and NaN *)

Lemma unbounded_spec (x : float) :
  unbounded x
  <-> (exists s, Prim2SF x = S754_infinity s) \/ Prim2SF x = S754_nan.
Proof.
  split.
  - intros [-> | [-> | ->]]; [left; exists false | left; exists true | right];
      reflexivity.
  - intros [[s H] | H]; rewrite <- (SF2Prim_Prim2SF x), H.
    + destruct s; [right; left | left]; reflexivity.
    + right. right. reflexivity.
Qed.

Lemma mul_unbounded_l (x y : float) : unbounded x -> unbounded (x * y).
Proof.
  rewrite !unbounded_spec, mul_spec. unfold SF64mul.
  intros [[s H] | H]; rewrite H; destruct (Prim2SF y); simpl; eauto.
Qed.

Lemma mul_unbounded_r (x y : float) : unbounded y -> unbounded (x * y).
Proof.
  rewrite !unbounded_spec, mul_spec. unfold SF64mul.
  intros [[s H] | H]; rewrite H; destruct (Prim2SF x); simpl; eauto.
Qed.

Lemma div_unbounded (x y : float) :
  unbounded x -> unbounded y -> (y =? 0) = false /\ x / y = nan.
Proof.
  intros [-> | [-> | ->]] [-> | [-> | ->]]; split; reflexivity.
Qed.

Close Scope float_scope.

(** ** The interior angle on doubles *)

Lemma int_truediv_small (a b : Z) :
  b <> 0%Z -> (Z.abs a < 2 ^ 53)%Z -> (Z.abs b < 2 ^ 53)%Z ->
  Double.int_truediv a b
  = Ok (Double.exact_float a / Double.exact_float b)%float.
Proof.
  intros Hb Ha Hb'. unfold Double.int_truediv.
  destruct (Z.eqb_spec b 0); [contradiction |].
  apply Z.ltb_lt in Ha, Hb'. rewrite Ha, Hb'. reflexivity.
Qed.

Lemma double_Polygon_init_inv (n : Z) (R : float) (p : Double.Polygon.t) :
  Double.Polygon.__init__ n R = Ok p ->
  (3 <= n)%Z /\ p = Double.Polygon.mk n R.
Proof.
  unfold Double.Polygon.__init__.
  destruct (Z.ltb_spec n 3) as [Hlt | Hge]; intros H.
  - discriminate H.
  - inversion H. split; [exact Hge | reflexivity].
Qed.

Lemma double_interior_angle_small (n : Z) (R : float) :
  (3 <= n <= 1000000)%Z ->
  Double.Polygon.interior_angle (Double.Polygon.mk n R)
  = Ok (Double.exact_float ((n - 2) * 180) / Double.exact_float n)%float.
Proof.
  intros Hn. unfold Double.Polygon.interior_angle. simpl.
  apply int_truediv_small.
  - lia.
  - change (2 ^ 53)%Z with 9007199254740992%Z. lia.
  - change (2 ^ 53)%Z with 9007199254740992%Z. lia.
Qed.

(** What a successful check of [k] angles from [n] on establishes. *)
Lemma angles_increase_sound (k : nat) (n : Z) (prev : float) :
  angles_increase k n prev = true ->
  forall i,
    (n <= i < n + Z.of_nat k)%Z ->
    (prev <? Double.exact_float ((i - 2) * 180) / Double.exact_float i)%float
    = true
    /\ (Double.exact_float ((i - 2) * 180) / Double.exact_float i <? 180)%float
       = true
    /\ forall i',
        (i < i' < n + Z.of_nat k)%Z ->
        (Double.exact_float ((i - 2) * 180) / Double.exact_float i
         <? Double.exact_float ((i' - 2) * 180) / Double.exact_float i')%float
        = true.
Proof.
  revert n prev. induction k as [| k IH]; intros n prev Hcheck i Hi.
  - simpl in Hi. lia.
  - cbn [angles_increase] in Hcheck.
    apply andb_prop in Hcheck. destruct Hcheck as [Hcheck Hrest].
    apply andb_prop in Hcheck. destruct Hcheck as [Hprev Hbelow].
    specialize (IH (n + 1)%Z _ Hrest).
    destruct (Z.eq_dec i n) as [-> | Hne].
    + split; [exact Hprev |]. split; [exact Hbelow |].
      intros i' Hi'. apply (IH i'). lia.
    + destruct (IH i) as [Hlt [Hlt180 Hlater]]; [lia |].
      split; [apply float_ltb_trans with (2 := Hlt); exact Hprev |].
      split; [exact Hlt180 |].
      intros i' Hi'. apply Hlater. lia.
Qed.

Lemma angles_increase_to_million :
  angles_increase (Z.to_nat 999997) 4 60 = true.
Proof. vm_compute. reflexivity. Qed.

(** The angles of the edge counts 3 .. 1000000: bounds and strict
    growth. *)
Lemma double_angles (n : Z) :
  (3 <= n <= 1000000)%Z ->
  (60 <=? Double.exact_float ((n - 2) * 180) / Double.exact_float n)%float
  = true
  /\ (Double.exact_float ((n - 2) * 180) / Double.exact_float n <? 180)%float
     = true
  /\ forall n',
      (n < n' <= 1000000)%Z ->
      (Double.exact_float ((n - 2) * 180) / Double.exact_float n
       <? Double.exact_float ((n' - 2) * 180) / Double.exact_float n')%float
      = true.
Proof.
  intros Hn.
  pose proof (angles_increase_sound _ _ _ angles_increase_to_million)
    as Hsound.
  destruct (Z.eq_dec n 3) as [-> | Hne].
  - split; [vm_compute; reflexivity |]. split; [vm_compute; reflexivity |].
    intros n' Hn'. destruct (Hsound n') as [Hlt _]; [lia |].
    exact Hlt.
  - destruct (Hsound n) as [Hlt [Hlt180 Hlater]]; [lia |].
    split; [apply float_ltb_leb; exact Hlt |].
    split; [exact Hlt180 |].
    intros n' Hn'. apply Hlater. lia.
Qed.

(** C4 (as stated) fails on both ends of the interval: the triangle's
    angle is exactly 60.0, and for [n = 10^17] the rounded quotient is
    exactly 180.0, the same as for [n = 10^17 + 1], so the angle is
    neither inside the open interval (60, 180) nor strictly
    increasing. *)
Lemma C4_counterexample :
  Double.Polygon.__init__ 3 1 = Ok (Double.Polygon.mk 3 1)
  /\ Double.Polygon.interior_angle (Double.Polygon.mk 3 1) = Ok 60%float
  /\ (60 <? 60)%float = false
  /\ Double.Polygon.interior_angle (Double.Polygon.mk (10 ^ 17) 1)
     = Ok 180%float
  /\ Double.Polygon.interior_angle (Double.Polygon.mk (10 ^ 17 + 1) 1)
     = Ok 180%float
  /\ (180 <? 180)%float = false.
Proof. repeat split; vm_compute; reflexivity. Qed.

(** C4 (amended): for a polygon with [3 <= n <= 1000000] edges the
    interior angle is the double quotient of [(n - 2) * 180] by [n], it
    lies in the half-open interval [[60, 180)] (60 is attained by the
    triangle), and it is strictly increasing in [n] over this range. *)
Theorem C4_interior_angle (n : Z) (R : float) (p : Double.Polygon.t) :
  Double.Polygon.__init__ n R = Ok p ->
  (n <= 1000000)%Z ->
  exists a,
    Double.Polygon.interior_angle p = Ok a
    /\ a = (Double.exact_float ((n - 2) * 180) / Double.exact_float n)%float
    /\ (60 <=? a)%float = true
    /\ (a <? 180)%float = true
    /\ (n = 3%Z -> a = 60%float)
    /\ (forall n' R' p',
           Double.Polygon.__init__ n' R' = Ok p' ->
           (n < n' <= 1000000)%Z ->
           exists a',
             Double.Polygon.interior_angle p' = Ok a'
             /\ (a <? a')%float = true).
Proof.
  intros Hp Hmax. apply double_Polygon_init_inv in Hp.
  destruct Hp as [Hn ->].
  destruct (double_angles n) as [Hlow [Hhigh Hgrow]]; [lia |].
  eexists. split; [apply double_interior_angle_small; lia |].
  split; [reflexivity |]. split; [exact Hlow |]. split; [exact Hhigh |].
  split; [intros ->; vm_compute; reflexivity |].
  intros n' R' p' Hp' Hn'. apply double_Polygon_init_inv in Hp'.
  destruct Hp' as [_ ->].
  eexists. split; [apply double_interior_angle_small; lia |].
  apply Hgrow. exact Hn'.
Qed.

Lemma C4_interior_angle_witness :
  exists a,
    Double.Polygon.interior_angle (Double.Polygon.mk 5 1) = Ok a
    /\ (60 <=? a)%float = true /\ (a <? 180)%float = true.
Proof.
  destruct (C4_interior_angle 5 1 (Double.Polygon.mk 5 1) eq_refl
              ltac:(lia)) as [a [Ha [_ [Hlow [Hhigh _]]]]].
  exists a. split; [exact Ha |]. split; [exact Hlow | exact Hhigh].
Defined.

(** ** The stable sort on double keys *)

Section DoubleSortedFacts.
Variable A : Type.
Implicit Types (x y z : float * A) (l : list (float * A)).

Lemma insert_Forall (P : float * A -> Prop) x l :
  P x -> Forall P l -> Forall P (Double.insert x l).
Proof.
  intros Hx Hl. induction Hl as [| y l Hy Hl IH]; simpl.
  - constructor; [exact Hx | constructor].
  - destruct (fst y <? fst x)%float.
    + constructor; assumption.
    + constructor; [exact Hx |]. constructor; assumption.
Qed.

Lemma sort_ascending_Forall (P : float * A -> Prop) l :
  Forall P l -> Forall P (Double.sort_ascending l).
Proof.
  induction 1 as [| x l Hx Hl IH]; simpl.
  - constructor.
  - apply insert_Forall; assumption.
Qed.

Lemma insert_sorted x l :
  is_nan (fst x) = false -> numbers l ->
  StronglySorted (@key_le A) l ->
  StronglySorted (@key_le A) (Double.insert x l).
Proof.
  intros Hx Hnum Hl. induction Hl as [| y l Hl IH Hy]; simpl.
  - constructor; constructor.
  - inversion Hnum as [| ? ? Hny Hnl]; subst.
    destruct (fst y <? fst x)%float eqn:Hlt.
    + constructor; [apply IH; exact Hnl |].
      apply insert_Forall; [| exact Hy].
      apply float_ltb_leb. exact Hlt.
    + assert (Hxy : key_le x y)
        by (apply float_ltb_false_leb; assumption).
      constructor; [constructor; assumption |].
      constructor; [exact Hxy |].
      apply Forall_impl with (P := key_le y); [| exact Hy].
      intros z Hz. unfold key_le in *.
      apply float_leb_trans with (fst y); assumption.
Qed.

Lemma sort_ascending_sorted l :
  numbers l -> StronglySorted (@key_le A) (Double.sort_ascending l).
Proof.
  induction 1 as [| x l Hx Hl IH]; simpl.
  - constructor.
  - apply insert_sorted; [exact Hx | | exact IH].
    apply sort_ascending_Forall. exact Hl.
Qed.

Lemma last_opt_In l z : last_opt l = Some z -> In z l.
Proof.
  revert z. induction l as [| x l IH]; simpl; intros z H.
  - discriminate H.
  - destruct (last_opt l) as [w |].
    + inversion H; subst w. right. apply IH. reflexivity.
    + inversion H. left. reflexivity.
Qed.

(** Where the inserted element ends up relative to the last one. *)
Lemma last_opt_insert x l :
  StronglySorted (@key_le A) l ->
  last_opt (Double.insert x l)
  = Some match last_opt l with
         | None => x
         | Some z => if (fst z <? fst x)%float then x else z
         end.
Proof.
  intros Hl. induction Hl as [| y l Hl IH Hy]; simpl.
  - reflexivity.
  - destruct (fst y <? fst x)%float eqn:Hlt; simpl.
    + rewrite IH. destruct (last_opt l) as [z |]; [reflexivity |].
      rewrite Hlt. reflexivity.
    + destruct (last_opt l) as [z |] eqn:Hlast.
      * apply last_opt_In in Hlast.
        rewrite Forall_forall in Hy. specialize (Hy z Hlast).
        unfold key_le in Hy.
        destruct (fst z <? fst x)%float eqn:Hzx; [| reflexivity].
        exfalso.
        pose proof (float_leb_ltb_trans _ _ _ Hy Hzx) as Hyx.
        congruence.
      * rewrite Hlt. reflexivity.
Qed.

(** The ascending stable sort ends with the last greatest element. *)
Lemma last_sort_ascending x l :
  numbers (x :: l) ->
  exists z, last_opt (Double.sort_ascending (x :: l)) = Some z
            /\ last_max (x :: l) z.
Proof.
  revert x. induction l as [| y l IH]; intros x Hnum.
  - exists x. split; [reflexivity |].
    exists [], []. repeat split; constructor.
  - inversion Hnum as [| ? ? Hx Hrest]; subst.
    destruct (IH y Hrest) as [z [Hz [l1 [l2 [Hl [H1 H2]]]]]].
    change (Double.sort_ascending (x :: y :: l))
      with (Double.insert x (Double.sort_ascending (y :: l))).
    rewrite last_opt_insert by (apply sort_ascending_sorted; exact Hrest).
    rewrite Hz.
    assert (Hnz : is_nan (fst z) = false).
    { unfold numbers in Hrest. rewrite Forall_forall in Hrest.
      apply Hrest. rewrite Hl. apply in_elt. }
    destruct (fst z <? fst x)%float eqn:Hlt.
    + exists x. split; [reflexivity |].
      exists [], (y :: l). split; [reflexivity |].
      split; [constructor |].
      rewrite Hl. apply Forall_app. split.
      * apply Forall_impl with (2 := H1). intros w Hw. simpl in Hw.
        apply float_leb_ltb_trans with (fst z); assumption.
      * constructor; [exact Hlt |].
        apply Forall_impl with (2 := H2). intros w Hw. simpl in Hw.
        apply float_ltb_trans with (fst z); assumption.
    + exists z. split; [reflexivity |].
      exists (x :: l1), l2. split; [rewrite Hl; reflexivity |].
      split; [| exact H2].
      constructor; [| exact H1].
      apply float_ltb_false_leb; assumption.
Qed.

Lemma last_max_rev l z : last_max (rev l) z -> first_max l z.
Proof.
  intros [l1 [l2 [Hl [H1 H2]]]].
  exists (rev l2), (rev l1). split; [| split].
  - rewrite <- (rev_involutive l), Hl, rev_app_distr. simpl.
    rewrite <- app_assoc. reflexivity.
  - apply Forall_rev. exact H2.
  - apply Forall_rev. exact H1.
Qed.

Lemma hd_error_rev l : hd_error (rev l) = last_opt l.
Proof.
  induction l as [| x l IH]; simpl; [reflexivity |].
  rewrite <- IH. destruct (rev l); reflexivity.
Qed.

(** The descending stable sort starts with the first greatest element. *)
Lemma hd_sorted_reverse l :
  l <> [] -> numbers l ->
  exists z, hd_error (Double.sorted_keyed l true) = Some z /\ first_max l z.
Proof.
  intros Hl Hnum. unfold Double.sorted_keyed. rewrite hd_error_rev.
  destruct (rev l) as [| x l'] eqn:Hrev.
  - exfalso. apply Hl. rewrite <- (rev_involutive l), Hrev. reflexivity.
  - destruct (last_sort_ascending x l') as [z [Hz Hmax]].
    { rewrite <- Hrev. apply Forall_rev. exact Hnum. }
    exists z. split; [exact Hz |].
    apply last_max_rev. rewrite Hrev. exact Hmax.
Qed.

Lemma insert_length x l :
  List.length (Double.insert x l) = S (List.length l).
Proof.
  induction l as [| y l IH]; simpl; [reflexivity |].
  destruct (fst y <? fst x)%float; simpl; [rewrite IH |]; reflexivity.
Qed.

Lemma sorted_keyed_length l (reverse : bool) :
  List.length (Double.sorted_keyed l reverse) = List.length l.
Proof.
  assert (Hsort : forall l', List.length (Double.sort_ascending l')
                             = List.length l').
  { induction l' as [| x l' IH]; simpl; [reflexivity |].
    rewrite insert_length, IH. reflexivity. }
  unfold Double.sorted_keyed. destruct reverse.
  - rewrite length_rev, Hsort, length_rev. reflexivity.
  - apply Hsort.
Qed.

(** A list in which no element's key is less than the key of the
    element before it in reverse order is left as it is. *)
Lemma sort_ascending_run l :
  StronglySorted (fun x y => (fst y <? fst x)%float = false) l ->
  Double.sort_ascending l = l.
Proof.
  induction 1 as [| x l Hl IH Hx]; simpl; [reflexivity |].
  rewrite IH. destruct l as [| y l']; simpl; [reflexivity |].
  apply Forall_inv in Hx. rewrite Hx. reflexivity.
Qed.

Lemma comprehension_keys (key : A -> result float) (l : list A)
      (keyed : list (float * A)) :
  comprehension (fun a : A => k <- key a ;; Ok (k, a)) l = Ok keyed ->
  map snd keyed = l /\ Forall (fun y => key (snd y) = Ok (fst y)) keyed.
Proof.
  revert keyed. induction l as [| a l IH]; simpl; intros keyed H.
  - inversion H. split; constructor.
  - destruct (key a) as [k |] eqn:Hk; simpl in H; [| discriminate H].
    destruct (comprehension _ l) as [ys |]; simpl in H; [| discriminate H].
    inversion H; subst keyed. destruct (IH ys eq_refl) as [Hmap Hall].
    split; [simpl; rewrite Hmap; reflexivity |].
    constructor; [exact Hk | exact Hall].
Qed.

Lemma comprehension_total {B : Type} (f : A -> result B) (l : list A) :
  Forall (fun a => exists b, f a = Ok b) l ->
  exists ys, comprehension f l = Ok ys.
Proof.
  induction 1 as [| a l [b Hb] Hl [ys IH]]; simpl.
  - eexists. reflexivity.
  - rewrite Hb, IH. simpl. eexists. reflexivity.
Qed.

Lemma comprehension_ext {B : Type} (f g : A -> result B) (l : list A) :
  Forall (fun a => f a = g a) l -> comprehension f l = comprehension g l.
Proof.
  induction 1 as [| a l Ha Hl IH]; simpl; [reflexivity |].
  rewrite Ha, IH. reflexivity.
Qed.
End DoubleSortedFacts.

Lemma list_getitem_0 {A : Type} (l : list A) :
  list_getitem l 0
  = match hd_error l with Some x => Ok x | None => Raise IndexError end.
Proof.
  destruct l as [| x l]; simpl.
  - reflexivity.
  - destruct (list_getitem_nonneg (x :: l) 0) as [y [Hy ->]].
    + unfold len. simpl. lia.
    + simpl in Hy. inversion Hy. reflexivity.
Qed.

Lemma hd_error_map {A B : Type} (f : A -> B) (l : list A) :
  hd_error (map f l) = option_map f (hd_error l).
Proof. destruct l; reflexivity. Qed.

(** ** Constructed sequences on doubles *)

Lemma double_Polygons_init_ok (m : Z) (R : float) :
  (3 <= m)%Z ->
  Double.Polygons.__init__ m R
  = Ok (Double.Polygons.mk m R (double_members m R)).
Proof.
  intros Hm. unfold Double.Polygons.__init__.
  destruct (Z.ltb_spec m 3); [lia |].
  rewrite (comprehension_map _ (fun i => Double.Polygon.mk i R)).
  - reflexivity.
  - intros x Hx. apply range_In in Hx. unfold Double.Polygon.__init__.
    destruct (Z.ltb_spec x 3); [lia | reflexivity].
Qed.

Lemma double_Polygons_init_inv (m : Z) (R : float) (s : Double.Polygons.t) :
  Double.Polygons.__init__ m R = Ok s ->
  (3 <= m)%Z /\ s = Double.Polygons.mk m R (double_members m R).
Proof.
  intros H. destruct (Z_lt_ge_dec m 3) as [Hm | Hm].
  - unfold Double.Polygons.__init__ in H.
    destruct (Z.ltb_spec m 3); [discriminate H | lia].
  - rewrite double_Polygons_init_ok in H by lia. inversion H.
    split; [lia | reflexivity].
Qed.

Lemma double_members_length (m : Z) (R : float) :
  (3 <= m)%Z -> len (double_members m R) = (m - 2)%Z.
Proof.
  intros Hm. unfold len, double_members.
  rewrite length_map, range_length. lia.
Qed.

Lemma double_members_nth (m : Z) (R : float) (k : nat) :
  (Z.of_nat k < m - 2)%Z ->
  nth_error (double_members m R) k
  = Some (Double.Polygon.mk (3 + Z.of_nat k) R).
Proof.
  intros Hk. unfold double_members.
  rewrite nth_error_map, range_nth by lia. reflexivity.
Qed.

Lemma double_members_not_nil (m : Z) (R : float) :
  (3 <= m)%Z -> double_members m R <> [].
Proof.
  intros Hm Hnil. pose proof (double_members_length m R Hm) as Hlen.
  rewrite Hnil in Hlen. unfold len in Hlen. simpl in Hlen. lia.
Qed.

Lemma double_members_last (m : Z) (R : float) :
  (3 <= m)%Z ->
  largest_edge_count_member (Double.Polygons.mk m R (double_members m R))
  = Ok (Double.Polygon.mk m R).
Proof.
  intros Hm.
  unfold largest_edge_count_member, Double.Polygons.__getitem__,
    Double.Polygons.__len__. simpl.
  destruct (list_getitem_nonneg (double_members m R) (m - 2 - 1))
    as [p [Hnth ->]].
  - rewrite double_members_length by exact Hm. lia.
  - rewrite double_members_nth in Hnth by lia.
    rewrite Z2Nat.id in Hnth by lia.
    assert (Hp : p = Double.Polygon.mk (3 + (m - 2 - 1)) R) by congruence.
    rewrite Hp. f_equal. f_equal. lia.
Qed.

Lemma double_members_first (m : Z) (R : float) :
  (3 <= m)%Z ->
  Double.Polygons.__getitem__
    (Double.Polygons.mk m R (double_members m R)) 0
  = Ok (Double.Polygon.mk 3 R).
Proof.
  intros Hm. unfold Double.Polygons.__getitem__. simpl.
  destruct (list_getitem_nonneg (double_members m R) 0) as [p [Hnth ->]].
  - rewrite double_members_length by exact Hm. lia.
  - change (Z.to_nat 0) with 0%nat in Hnth.
    rewrite (double_members_nth m R 0) in Hnth by (simpl; lia).
    change (3 + Z.of_nat 0)%Z with 3%Z in Hnth. congruence.
Qed.

(** Where a member of given edge count sits: a split of the list around
    the polygon with [m] edges has nothing after it. *)
Lemma double_members_split_last (m : Z) (R : float)
      (l1 l2 : list Double.Polygon.t) :
  (3 <= m)%Z ->
  double_members m R = l1 ++ Double.Polygon.mk m R :: l2 -> l2 = [].
Proof.
  intros Hm Hsplit.
  pose proof (double_members_length m R Hm) as Hlen.
  unfold len in Hlen. rewrite Hsplit, length_app in Hlen.
  cbn [List.length] in Hlen.
  assert (Hat : nth_error (double_members m R) (List.length l1)
                = Some (Double.Polygon.mk m R)).
  { rewrite Hsplit, nth_error_app2 by lia.
    rewrite Nat.sub_diag. reflexivity. }
  rewrite double_members_nth in Hat by lia.
  assert (Hm' : (3 + Z.of_nat (List.length l1))%Z = m) by congruence.
  destruct l2 as [| q l2]; [reflexivity |].
  cbn [List.length] in Hlen. lia.
Qed.

(** ** The efficiency query on doubles *)

Section Query.
Variables math_sin math_cos : float -> float.

(** The query in terms of the computed keys. *)
Lemma max_efficiency_keyed (s : Double.Polygons.t)
      (keyed : list (float * Double.Polygon.t)) :
  comprehension
    (fun q => k <- Double.Polygons.efficiency math_sin math_cos q ;;
              Ok (k, q))
    (Double.Polygons._polygons s) = Ok keyed ->
  Double.Polygons.max_efficiency_polygon math_sin math_cos s
  = match hd_error (Double.sorted_keyed keyed true) with
    | Some z => Ok (snd z)
    | None => Raise IndexError
    end.
Proof.
  intros Hkeyed. unfold Double.Polygons.max_efficiency_polygon, Double.sorted.
  rewrite Hkeyed. cbn [bind].
  rewrite list_getitem_0, hd_error_map.
  destruct (hd_error _); reflexivity.
Qed.

(** When every ratio is a number, a returned polygon is the first member
    whose ratio is the greatest. *)
Lemma max_efficiency_first_max (s : Double.Polygons.t) :
  Double.Polygons._polygons s <> [] ->
  ratios_are_numbers math_sin math_cos (Double.Polygons._polygons s) ->
  exists p l1 l2,
    Double.Polygons.max_efficiency_polygon math_sin math_cos s = Ok p
    /\ Double.Polygons._polygons s = l1 ++ p :: l2
    /\ Forall (fun q => ratio_lt math_sin math_cos q p) l1
    /\ Forall (fun q => ratio_le math_sin math_cos q p) l2.
Proof.
  intros Hne Hnum.
  destruct (comprehension_total _
              (fun q =>
                 k <- Double.Polygons.efficiency math_sin math_cos q ;;
                 Ok (k, q))
              (Double.Polygons._polygons s)) as [keyed Hkeyed].
  { apply Forall_impl with (2 := Hnum). intros q [k [Hk _]].
    rewrite Hk. simpl. eexists. reflexivity. }
  rewrite (max_efficiency_keyed s keyed Hkeyed).
  apply comprehension_keys in Hkeyed. destruct Hkeyed as [Hmap Hkeys].
  assert (Hnumbers : numbers keyed).
  { unfold numbers, ratios_are_numbers in *.
    rewrite Forall_forall in *. intros y Hy.
    assert (Hin : In (snd y) (Double.Polygons._polygons s))
      by (rewrite <- Hmap; apply in_map; exact Hy).
    destruct (Hnum _ Hin) as [k [Hk Hnan]].
    rewrite (Hkeys y Hy) in Hk. congruence. }
  destruct (hd_sorted_reverse _ keyed) as [z [Hz Hmax]].
  { intros ->. apply Hne. rewrite <- Hmap. reflexivity. }
  { exact Hnumbers. }
  rewrite Hz.
  destruct Hmax as [k1 [k2 [Hsplit [H1 H2]]]].
  rewrite Hsplit in Hkeys, Hmap.
  apply Forall_app in Hkeys. destruct Hkeys as [Hk1 Hk2].
  inversion Hk2 as [| ? ? Hkz Hk2']; subst.
  exists (snd z), (map snd k1), (map snd k2).
  split; [reflexivity |].
  split; [rewrite <- Hmap, map_app; reflexivity |].
  split; apply Forall_map, Forall_forall; intros w Hw.
  - rewrite Forall_forall in Hk1, H1.
    exists (fst w), (fst z). auto.
  - rewrite Forall_forall in Hk2', H2.
    exists (fst w), (fst z). auto.
Qed.

Lemma ratio_le_refl (p : Double.Polygon.t) (k : float) :
  Double.Polygons.efficiency math_sin math_cos p = Ok k ->
  is_nan k = false ->
  ratio_le math_sin math_cos p p.
Proof.
  intros Hk Hnan. exists k, k. repeat split; try exact Hk.
  apply float_leb_refl. exact Hnan.
Qed.

Lemma ratio_lt_le (q p : Double.Polygon.t) :
  ratio_lt math_sin math_cos q p -> ratio_le math_sin math_cos q p.
Proof.
  intros [kq [kp [Hq [Hp Hlt]]]]. exists kq, kp.
  repeat split; try assumption. apply float_ltb_leb. exact Hlt.
Qed.

Lemma ratio_lt_not_le (q p : Double.Polygon.t) :
  ratio_lt math_sin math_cos q p -> ~ ratio_le math_sin math_cos p q.
Proof.
  intros [kq [kp [Hq [Hp Hlt]]]] [kp' [kq' [Hp' [Hq' Hle]]]].
  rewrite Hp in Hp'. rewrite Hq in Hq'. inversion Hp'. inversion Hq'.
  subst. apply float_leb_ltb_false in Hle. congruence.
Qed.
End Query.

Lemma range_snoc (lo hi : Z) :
  (lo <= hi)%Z -> range lo (hi + 1) = range lo hi ++ [hi].
Proof.
  intros Hle. unfold range.
  replace (Z.to_nat (hi + 1 - lo)) with (S (Z.to_nat (hi - lo))) by lia.
  rewrite seq_S, map_app. simpl. f_equal. f_equal. lia.
Qed.

Lemma double_members_snoc (m : Z) (R : float) :
  (3 <= m)%Z ->
  double_members m R = double_members (m - 1) R ++ [Double.Polygon.mk m R].
Proof.
  intros Hm. unfold double_members.
  rewrite range_snoc by lia. rewrite map_app.
  replace (m - 1 + 1)%Z with m by lia. reflexivity.
Qed.

Lemma all_pairs_sorted {A : Type} (R : A -> A -> Prop) (l : list A) :
  (forall x y, In x l -> In y l -> R x y) -> StronglySorted R l.
Proof.
  induction l as [| a l IH]; intros H; constructor.
  - apply IH. intros x y Hx Hy. apply H; right; assumption.
  - apply Forall_forall. intros y Hy. apply H; [left; reflexivity |].
    right. exact Hy.
Qed.

Section QueryCases.
Variables math_sin math_cos : float -> float.

(** When no ratio is less than another, the sort leaves the list as it
    is and the query returns the first member. *)
Lemma max_efficiency_no_less (s : Double.Polygons.t) :
  Forall (fun q => exists k,
              Double.Polygons.efficiency math_sin math_cos q = Ok k)
         (Double.Polygons._polygons s) ->
  (forall q q' k k',
      In q (Double.Polygons._polygons s) ->
      In q' (Double.Polygons._polygons s) ->
      Double.Polygons.efficiency math_sin math_cos q = Ok k ->
      Double.Polygons.efficiency math_sin math_cos q' = Ok k' ->
      (k <? k')%float = false) ->
  Double.Polygons.max_efficiency_polygon math_sin math_cos s
  = Double.Polygons.__getitem__ s 0.
Proof.
  intros Hall Hties.
  destruct (comprehension_total _
              (fun q =>
                 k <- Double.Polygons.efficiency math_sin math_cos q ;;
                 Ok (k, q))
              (Double.Polygons._polygons s)) as [keyed Hkeyed].
  { apply Forall_impl with (2 := Hall). intros q [k Hk].
    rewrite Hk. simpl. eexists. reflexivity. }
  rewrite (max_efficiency_keyed _ _ s keyed Hkeyed).
  apply comprehension_keys in Hkeyed. destruct Hkeyed as [Hmap Hkeys].
  unfold Double.Polygons.__getitem__.
  rewrite list_getitem_0, <- Hmap, hd_error_map.
  unfold Double.sorted_keyed.
  rewrite sort_ascending_run, rev_involutive.
  - destruct (hd_error keyed); reflexivity.
  - apply all_pairs_sorted. intros x y Hx Hy.
    apply in_rev in Hx, Hy. rewrite Forall_forall in Hkeys.
    apply (Hties (snd y) (snd x)).
    + rewrite <- Hmap. apply in_map. exact Hy.
    + rewrite <- Hmap. apply in_map. exact Hx.
    + apply Hkeys. exact Hy.
    + apply Hkeys. exact Hx.
Qed.

(** When doubling the circumradius overflows, every ratio is NaN. *)
Lemma efficiency_overflow (p : Double.Polygon.t) (fn h : float) :
  Double.float_of_int (Double.Polygon._n p) = Ok fn ->
  (fn =? 0)%float = false ->
  Double.int_truediv (Double.Polygon._n p) 2 = Ok h ->
  unbounded (2 * Double.Polygon._R p)%float ->
  Double.Polygons.efficiency math_sin math_cos p = Ok nan.
Proof.
  intros Hfn Hnz Hh Hbig.
  unfold Double.Polygons.efficiency, Double.Polygon.area,
    Double.Polygon.perimeter, Double.Polygon.side_length,
    Double.Polygon.apothem, Double.Polygon.half_angle.
  rewrite Hfn, Hh. cbn [bind].
  unfold Double.float_truediv at 1 2 3. rewrite Hnz. cbn [bind].
  match goal with
  | |- Double.float_truediv ?a ?b = _ =>
      assert (Ha : unbounded a)
        by (apply mul_unbounded_l, mul_unbounded_r, mul_unbounded_l;
            exact Hbig);
      assert (Hb : unbounded b)
        by (apply mul_unbounded_r, mul_unbounded_l; exact Hbig);
      destruct (div_unbounded a b Ha Hb) as [Hzero Hnan];
      unfold Double.float_truediv; rewrite Hzero, Hnan; reflexivity
  end.
Qed.
End QueryCases.

(** ** The efficiency query: the tabulated library values *)

Lemma agrees_at (f : float -> float) (table : list (float * float))
      (a b : float) :
  agrees f table -> In (a, b) table -> f a = b.
Proof.
  unfold agrees. rewrite Forall_forall. intros H Hin.
  apply (H (a, b) Hin).
Qed.

Lemma efficiency_ext (sin1 cos1 sin2 cos2 : float -> float)
      (p : Double.Polygon.t) :
  (forall x, Double.Polygon.half_angle p = Ok x ->
             sin1 x = sin2 x /\ cos1 x = cos2 x) ->
  Double.Polygons.efficiency sin1 cos1 p
  = Double.Polygons.efficiency sin2 cos2 p.
Proof.
  intros H.
  unfold Double.Polygons.efficiency, Double.Polygon.area,
    Double.Polygon.perimeter, Double.Polygon.side_length,
    Double.Polygon.apothem.
  destruct (Double.Polygon.half_angle p) as [x | e]; [| reflexivity].
  destruct (H x eq_refl) as [Hsin Hcos]. cbn [bind].
  rewrite Hsin, Hcos. reflexivity.
Qed.

Lemma max_efficiency_ext (sin1 cos1 sin2 cos2 : float -> float)
      (s : Double.Polygons.t) :
  Forall (fun q => Double.Polygons.efficiency sin1 cos1 q
                   = Double.Polygons.efficiency sin2 cos2 q)
         (Double.Polygons._polygons s) ->
  Double.Polygons.max_efficiency_polygon sin1 cos1 s
  = Double.Polygons.max_efficiency_polygon sin2 cos2 s.
Proof.
  intros H. unfold Double.Polygons.max_efficiency_polygon, Double.sorted.
  rewrite (comprehension_ext _
             (fun x => k <- Double.Polygons.efficiency sin1 cos1 x ;;
                       Ok (k, x))
             (fun x => k <- Double.Polygons.efficiency sin2 cos2 x ;;
                       Ok (k, x))).
  - reflexivity.
  - apply Forall_impl with (2 := H). intros q Hq. rewrite Hq. reflexivity.
Qed.

(** With the tabulated library values, the sequence for [m = 10] and
    [R = 1.0] has strictly increasing computed ratios and the query
    returns the polygon with 10 edges. *)
Lemma max_efficiency_ten (math_sin math_cos : float -> float) :
  agrees math_sin sin_table -> agrees math_cos cos_table ->
  Double.Polygons.max_efficiency_polygon math_sin math_cos
    (Double.Polygons.mk 10 1 (double_members 10 1))
  = Ok (Double.Polygon.mk 10 1).
Proof.
  intros Hsin Hcos.
  rewrite (max_efficiency_ext math_sin math_cos
             (lookup sin_table) (lookup cos_table)).
  - vm_compute. reflexivity.
  - repeat constructor;
      apply efficiency_ext; intros x Hx;
      vm_compute in Hx; injection Hx as <-;
      (split;
       [ erewrite (agrees_at math_sin) by
           (first [ exact Hsin
                  | repeat first [left; reflexivity | right] ])
       | erewrite (agrees_at math_cos) by
           (first [ exact Hcos
                  | repeat first [left; reflexivity | right] ]) ]);
      vm_compute; reflexivity.
Qed.

(** ** The efficiency query: the claims *)

(** For [m = 10] and the circumradius [1e308], doubling the radius
    overflows, so every ratio is NaN whatever the library returns. *)
Lemma ratios_at_1e308 (math_sin math_cos : float -> float)
      (q : Double.Polygon.t) :
  In q (double_members 10 0x1.1ccf385ebc8ap+1023) ->
  Double.Polygons.efficiency math_sin math_cos q = Ok nan.
Proof.
  intros Hq. vm_compute in Hq.
  repeat (destruct Hq as [<- | Hq];
          [ eapply efficiency_overflow;
            [ vm_compute; reflexivity
            | vm_compute; reflexivity
            | vm_compute; reflexivity
            | left; vm_compute; reflexivity ] | ]).
  contradiction.
Qed.

Lemma max_efficiency_at_1e308 (math_sin math_cos : float -> float) :
  Double.Polygons.max_efficiency_polygon math_sin math_cos
    (Double.Polygons.mk 10 0x1.1ccf385ebc8ap+1023
       (double_members 10 0x1.1ccf385ebc8ap+1023))
  = Ok (Double.Polygon.mk 3 0x1.1ccf385ebc8ap+1023).
Proof.
  rewrite max_efficiency_no_less.
  - apply double_members_first. lia.
  - apply Forall_forall. intros q Hq. exists nan.
    apply ratios_at_1e308. exact Hq.
  - intros q q' k k' Hq Hq' Hk Hk'. simpl in Hq, Hq'.
    rewrite (ratios_at_1e308 _ _ q Hq) in Hk.
    rewrite (ratios_at_1e308 _ _ q' Hq') in Hk'.
    inversion Hk. inversion Hk'. reflexivity.
Qed.

(** C7 (as stated) fails: [Polygons(10, 1e308)] is constructed, its
    circumradius is positive, and whatever [math.sin] and [math.cos]
    return, the sort-based query does not return what [s[len(s) - 1]]
    returns: all ratios are NaN, the stable sort keeps the order and the
    triangle comes first. *)
Lemma C7_counterexample :
  Double.Polygons.__init__ 10 0x1.1ccf385ebc8ap+1023
  = Ok (Double.Polygons.mk 10 0x1.1ccf385ebc8ap+1023
          (double_members 10 0x1.1ccf385ebc8ap+1023))
  /\ (0 <? 0x1.1ccf385ebc8ap+1023)%float = true
  /\ ~ (exists math_sin math_cos : float -> float,
           Double.Polygons.max_efficiency_polygon math_sin math_cos
             (Double.Polygons.mk 10 0x1.1ccf385ebc8ap+1023
                (double_members 10 0x1.1ccf385ebc8ap+1023))
           = largest_edge_count_member
               (Double.Polygons.mk 10 0x1.1ccf385ebc8ap+1023
                  (double_members 10 0x1.1ccf385ebc8ap+1023))).
Proof.
  split; [apply double_Polygons_init_ok; lia |].
  split; [vm_compute; reflexivity |].
  intros [math_sin [math_cos H]].
  rewrite max_efficiency_at_1e308, double_members_last in H by lia.
  inversion H.
Qed.

(** C7 (amended): for a constructed sequence whose ratios
    [area / perimeter] are all computed without an exception and are
    numbers (not NaN), the sort-based query returns the first member, in
    ascending edge-count order, among those whose computed ratio is the
    greatest: every member before it has a strictly smaller ratio and no
    member after it has a greater one.  It returns what [s[len(s) - 1]]
    returns exactly when the computed ratio of the last member is
    strictly greater than that of every other member. *)
Theorem C7_sort_first_maximum (math_sin math_cos : float -> float)
        (m : Z) (R : float) (s : Double.Polygons.t) :
  Double.Polygons.__init__ m R = Ok s ->
  ratios_are_numbers math_sin math_cos (Double.Polygons._polygons s) ->
  exists p l1 l2,
    Double.Polygons.max_efficiency_polygon math_sin math_cos s = Ok p
    /\ Double.Polygons._polygons s = l1 ++ p :: l2
    /\ Forall (fun q => ratio_lt math_sin math_cos q p) l1
    /\ Forall (fun q => ratio_le math_sin math_cos q p) l2
    /\ (Double.Polygons.max_efficiency_polygon math_sin math_cos s
        = largest_edge_count_member s
        <-> Forall (fun q => ratio_lt math_sin math_cos q
                               (Double.Polygon.mk m R))
                   (removelast (Double.Polygons._polygons s))).
Proof.
  intros Hs Hnum. apply double_Polygons_init_inv in Hs.
  destruct Hs as [Hm ->].
  destruct (max_efficiency_first_max math_sin math_cos
              (Double.Polygons.mk m R (double_members m R)))
    as [p [l1 [l2 [Hp [Hsplit [H1 H2]]]]]].
  { apply double_members_not_nil. exact Hm. }
  { exact Hnum. }
  exists p, l1, l2.
  split; [exact Hp |]. split; [exact Hsplit |].
  split; [exact H1 |]. split; [exact H2 |].
  cbn [Double.Polygons._polygons] in *.
  rewrite Hp, double_members_last by exact Hm.
  pose proof (double_members_snoc m R Hm) as Hsnoc.
  split.
  - intros Hlast. inversion Hlast; subst p.
    pose proof (double_members_split_last m R l1 l2 Hm Hsplit) as ->.
    rewrite Hsplit, removelast_last. exact H1.
  - intros Hless. f_equal.
    rewrite Hsnoc, removelast_last in Hless.
    destruct (exists_last (l := p :: l2)) as [rest [z Hrest]];
      [discriminate |].
    assert (Heq : double_members (m - 1) R ++ [Double.Polygon.mk m R]
                  = (l1 ++ rest) ++ [z]).
    { rewrite <- Hsnoc, Hsplit, <- app_assoc, <- Hrest. reflexivity. }
    apply app_inj_tail in Heq. destruct Heq as [Hfront Hz]. subst z.
    destruct rest as [| r rest].
    + simpl in Hrest. inversion Hrest. reflexivity.
    + exfalso. simpl in Hrest. inversion Hrest; subst r.
      assert (Hp_lt : ratio_lt math_sin math_cos p (Double.Polygon.mk m R)).
      { rewrite Forall_forall in Hless. apply Hless.
        rewrite Hfront. apply in_elt. }
      assert (Hlast_le : ratio_le math_sin math_cos
                           (Double.Polygon.mk m R) p).
      { rewrite Forall_forall in H2. apply H2.
        match goal with H : l2 = _ |- _ => rewrite H end.
        apply in_elt. }
      exact (ratio_lt_not_le _ _ _ _ Hp_lt Hlast_le).
Qed.

Lemma C7_sort_first_maximum_witness :
  exists p,
    Double.Polygons.max_efficiency_polygon
      (lookup sin_table) (lookup cos_table)
      (Double.Polygons.mk 10 1 (double_members 10 1)) = Ok p
    /\ In p (double_members 10 1).
Proof.
  destruct (C7_sort_first_maximum (lookup sin_table) (lookup cos_table)
              10 1 (Double.Polygons.mk 10 1 (double_members 10 1))
              eq_refl
              ltac:(repeat constructor; eexists; split;
                    vm_compute; reflexivity))
    as [p [l1 [l2 [Hp [Hsplit _]]]]].
  exists p. split; [exact Hp |].
  cbn [Double.Polygons._polygons] in Hsplit. rewrite Hsplit.
  apply in_elt.
Defined.

(** C3 (as stated) fails in two ways.  For [Polygons(10, 1e308)], whose
    circumradius is positive, whatever [math.sin] and [math.cos] return,
    the query returns no member whose ratio is at least the ratio of
    every member: every ratio is NaN, and NaN is not [<=] NaN.  And for
    [Polygons(13, 5e-324)], with the tabulated library values, the
    query returns nothing: the side of the 13-gon underflows to 0.0 and
    the ratio raises [ZeroDivisionError]. *)
Lemma C3_counterexample :
  Double.Polygons.__init__ 10 0x1.1ccf385ebc8ap+1023
  = Ok (Double.Polygons.mk 10 0x1.1ccf385ebc8ap+1023
          (double_members 10 0x1.1ccf385ebc8ap+1023))
  /\ (0 <? 0x1.1ccf385ebc8ap+1023)%float = true
  /\ ~ (exists (math_sin math_cos : float -> float) (p : Double.Polygon.t),
           Double.Polygons.max_efficiency_polygon math_sin math_cos
             (Double.Polygons.mk 10 0x1.1ccf385ebc8ap+1023
                (double_members 10 0x1.1ccf385ebc8ap+1023))
           = Ok p
           /\ Forall (fun q => ratio_le math_sin math_cos q p)
                     (double_members 10 0x1.1ccf385ebc8ap+1023))
  /\ Double.Polygons.__init__ 13 0x1p-1074
     = Ok (Double.Polygons.mk 13 0x1p-1074 (double_members 13 0x1p-1074))
  /\ (0 <? 0x1p-1074)%float = true
  /\ Double.Polygons.max_efficiency_polygon
       (lookup sin_table) (lookup cos_table)
       (Double.Polygons.mk 13 0x1p-1074 (double_members 13 0x1p-1074))
     = Raise ZeroDivisionError.
Proof.
  split; [apply double_Polygons_init_ok; lia |].
  split; [vm_compute; reflexivity |].
  split.
  { intros [math_sin [math_cos [p [Hp Hmax]]]].
    rewrite max_efficiency_at_1e308 in Hp. inversion Hp; subst p.
    rewrite Forall_forall in Hmax.
    destruct (Hmax (Double.Polygon.mk 3 0x1.1ccf385ebc8ap+1023))
      as [kq [kp [Hq [_ Hle]]]].
    { vm_compute. left. reflexivity. }
    rewrite ratios_at_1e308 in Hq by (vm_compute; left; reflexivity).
    inversion Hq; subst kq.
    apply float_leb_compare in Hle. vm_compute in Hle.
    destruct Hle as [Hle | Hle]; destruct (Prim2SF kp); discriminate Hle. }
  split; [apply double_Polygons_init_ok; lia |].
  split; vm_compute; reflexivity.
Qed.

(** C3 (amended): for a constructed sequence whose ratios
    [area / perimeter] are all computed without an exception and are
    numbers (not NaN), the query returns a member whose computed ratio
    is at least that of every member; and for [m = 10] and [R = 1.0],
    with the C library's values of [math.sin] and [math.cos] at
    [math.pi / n] as tabulated, the returned polygon has 10 edges. *)
Theorem C3_max_efficiency (math_sin math_cos : float -> float)
        (m : Z) (R : float) (s : Double.Polygons.t) :
  Double.Polygons.__init__ m R = Ok s ->
  ratios_are_numbers math_sin math_cos (Double.Polygons._polygons s) ->
  (exists p,
      Double.Polygons.max_efficiency_polygon math_sin math_cos s = Ok p
      /\ In p (Double.Polygons._polygons s)
      /\ Forall (fun q => ratio_le math_sin math_cos q p)
                (Double.Polygons._polygons s))
  /\ (agrees math_sin sin_table -> agrees math_cos cos_table ->
      exists s10 p,
        Double.Polygons.__init__ 10 1 = Ok s10
        /\ Double.Polygons.max_efficiency_polygon math_sin math_cos s10
           = Ok p
        /\ Double.Polygon.count_edges p = 10%Z).
Proof.
  intros Hs Hnum. split.
  - apply double_Polygons_init_inv in Hs. destruct Hs as [Hm ->].
    destruct (max_efficiency_first_max math_sin math_cos
                (Double.Polygons.mk m R (double_members m R)))
      as [p [l1 [l2 [Hp [Hsplit [H1 H2]]]]]].
    { apply double_members_not_nil. exact Hm. }
    { exact Hnum. }
    exists p. split; [exact Hp |].
    split; [rewrite Hsplit; apply in_elt |].
    rewrite Hsplit. apply Forall_app. split.
    + apply Forall_impl with (2 := H1).
      intros q Hq. exact (ratio_lt_le _ _ q p Hq).
    + constructor; [| exact H2].
      unfold ratios_are_numbers in Hnum. rewrite Forall_forall in Hnum.
      destruct (Hnum p) as [k [Hk Hnan]];
        [rewrite Hsplit; apply in_elt |].
      exact (ratio_le_refl _ _ p k Hk Hnan).
  - intros Hsin Hcos.
    exists (Double.Polygons.mk 10 1 (double_members 10 1)),
      (Double.Polygon.mk 10 1).
    split; [apply double_Polygons_init_ok; lia |].
    split; [apply max_efficiency_ten; assumption | reflexivity].
Qed.

Lemma C3_max_efficiency_witness :
  exists s10 p,
    Double.Polygons.__init__ 10 1 = Ok s10
    /\ Double.Polygons.max_efficiency_polygon
         (lookup sin_table) (lookup cos_table) s10 = Ok p
    /\ Double.Polygon.count_edges p = 10%Z.
Proof.
  destruct (C3_max_efficiency (lookup sin_table) (lookup cos_table)
              10 1 (Double.Polygons.mk 10 1 (double_members 10 1))
              eq_refl
              ltac:(repeat constructor; eexists; split;
                    vm_compute; reflexivity))
    as [_ Hten].
  apply Hten; repeat constructor.
Defined.

(** ** Further properties on doubles *)

Lemma float_truediv_raises (a b : float) (e : exn) :
  Double.float_truediv a b = Raise e -> e = ZeroDivisionError.
Proof.
  unfold Double.float_truediv. destruct (b =? 0)%float; intros H;
    inversion H. reflexivity.
Qed.

Lemma float_of_int_raises (n : Z) (e : exn) :
  Double.float_of_int n = Raise e -> e = OverflowError.
Proof.
  unfold Double.float_of_int. destruct (is_infinity _); intros H;
    inversion H. reflexivity.
Qed.

Lemma int_truediv_raises (a b : Z) (e : exn) :
  Double.int_truediv a b = Raise e ->
  e = ZeroDivisionError \/ e = OverflowError.
Proof.
  unfold Double.int_truediv.
  destruct (b =? 0)%Z; [intros H; inversion H; left; reflexivity |].
  destruct (_ && _); [intros H; discriminate H |].
  destruct (is_infinity _); intros H; inversion H. right. reflexivity.
Qed.

(** Peel the binds of a raising computation on doubles. *)
Ltac raised_double H :=
  repeat match type of H with
    | bind _ _ = Raise _ =>
        apply bind_raises in H; destruct H as [H | [? [_ H]]]
    | Double.float_truediv _ _ = Raise _ =>
        apply float_truediv_raises in H; left; exact H
    | Double.float_of_int _ = Raise _ =>
        apply float_of_int_raises in H; right; exact H
    | Double.int_truediv _ _ = Raise _ =>
        apply int_truediv_raises in H; exact H
    | Ok _ = Raise _ => discriminate H
    end.

Section DoubleExceptions.
Variables math_sin math_cos : float -> float.

Lemma half_angle_raises (p : Double.Polygon.t) (e : exn) :
  Double.Polygon.half_angle p = Raise e ->
  e = ZeroDivisionError \/ e = OverflowError.
Proof. unfold Double.Polygon.half_angle. intros H. raised_double H. Qed.

Lemma double_side_length_raises (p : Double.Polygon.t) (e : exn) :
  Double.Polygon.side_length math_sin p = Raise e ->
  e = ZeroDivisionError \/ e = OverflowError.
Proof.
  unfold Double.Polygon.side_length. intros H. raised_double H.
  apply half_angle_raises in H. exact H.
Qed.

Lemma double_apothem_raises (p : Double.Polygon.t) (e : exn) :
  Double.Polygon.apothem math_cos p = Raise e ->
  e = ZeroDivisionError \/ e = OverflowError.
Proof.
  unfold Double.Polygon.apothem. intros H. raised_double H.
  apply half_angle_raises in H. exact H.
Qed.

Lemma double_area_raises (p : Double.Polygon.t) (e : exn) :
  Double.Polygon.area math_sin math_cos p = Raise e ->
  e = ZeroDivisionError \/ e = OverflowError.
Proof.
  unfold Double.Polygon.area. intros H. raised_double H;
    first [ apply double_side_length_raises in H; exact H
          | apply double_apothem_raises in H; exact H ].
Qed.

Lemma double_perimeter_raises (p : Double.Polygon.t) (e : exn) :
  Double.Polygon.perimeter math_sin p = Raise e ->
  e = ZeroDivisionError \/ e = OverflowError.
Proof.
  unfold Double.Polygon.perimeter. intros H. raised_double H.
  apply double_side_length_raises in H. exact H.
Qed.

Lemma double_efficiency_raises (p : Double.Polygon.t) (e : exn) :
  Double.Polygons.efficiency math_sin math_cos p = Raise e ->
  e = ZeroDivisionError \/ e = OverflowError.
Proof.
  unfold Double.Polygons.efficiency. intros H. raised_double H;
    first [ apply double_area_raises in H; exact H
          | apply double_perimeter_raises in H; exact H ].
Qed.
End DoubleExceptions.

(** X16: on doubles, whatever [math.sin] and [math.cos] return, a
    measurement of a polygon (interior angle, side length, apothem,
    area, perimeter, and the ratio used as sort key) raises nothing but
    [ZeroDivisionError] or [OverflowError]; and so does the efficiency
    query of a constructed sequence, which in particular never raises
    [IndexError]. *)
Theorem X16_double_exceptions (math_sin math_cos : float -> float) :
  (forall p e,
      Double.Polygon.interior_angle p = Raise e
      \/ Double.Polygon.side_length math_sin p = Raise e
      \/ Double.Polygon.apothem math_cos p = Raise e
      \/ Double.Polygon.area math_sin math_cos p = Raise e
      \/ Double.Polygon.perimeter math_sin p = Raise e
      \/ Double.Polygons.efficiency math_sin math_cos p = Raise e ->
      e = ZeroDivisionError \/ e = OverflowError)
  /\ (forall m R s e,
         Double.Polygons.__init__ m R = Ok s ->
         Double.Polygons.max_efficiency_polygon math_sin math_cos s
         = Raise e ->
         e = ZeroDivisionError \/ e = OverflowError).
Proof.
  split.
  - intros p e [H | [H | [H | [H | [H | H]]]]].
    + apply int_truediv_raises in H. exact H.
    + apply double_side_length_raises in H. exact H.
    + apply double_apothem_raises in H. exact H.
    + apply double_area_raises in H. exact H.
    + apply double_perimeter_raises in H. exact H.
    + apply double_efficiency_raises in H. exact H.
  - intros m R s e Hs H. apply double_Polygons_init_inv in Hs.
    destruct Hs as [Hm ->].
    unfold Double.Polygons.max_efficiency_polygon, Double.sorted in H.
    cbn [Double.Polygons._polygons] in H.
    destruct (comprehension _ (double_members m R)) as [keyed | e']
      eqn:Hkeyed; cbn [bind] in H.
    + exfalso. apply comprehension_keys in Hkeyed.
      destruct Hkeyed as [Hmap _].
      rewrite list_getitem_0 in H.
      destruct (map snd (Double.sorted_keyed keyed true)) as [| z zs]
        eqn:Hsorted; [| discriminate H].
      apply (f_equal (@List.length _)) in Hsorted.
      rewrite length_map, sorted_keyed_length in Hsorted.
      apply (f_equal (@List.length _)) in Hmap.
      rewrite length_map in Hmap.
      pose proof (double_members_length m R Hm) as Hlen.
      unfold len in Hlen. simpl in Hsorted. lia.
    + inversion H; subst e'.
      apply comprehension_raises in Hkeyed.
      destruct Hkeyed as [q [_ Hq]].
      apply bind_raises in Hq. destruct Hq as [Hq | [? [_ Hq]]];
        [| discriminate Hq].
      apply double_efficiency_raises in Hq. exact Hq.
Qed.

(** X17: on a constructed sequence whose ratios are all computed (no
    exception), when no member's computed ratio is less than another
    member's -- all ratios tie, as after an overflow or an underflow, or
    all are NaN -- the stable sort keeps the order and the query returns
    the first member, the triangle [s[0]]. *)
Theorem X17_ties_return_first (math_sin math_cos : float -> float)
        (m : Z) (R : float) (s : Double.Polygons.t) :
  Double.Polygons.__init__ m R = Ok s ->
  Forall (fun q => exists k,
              Double.Polygons.efficiency math_sin math_cos q = Ok k)
         (Double.Polygons._polygons s) ->
  (forall q q' k k',
      In q (Double.Polygons._polygons s) ->
      In q' (Double.Polygons._polygons s) ->
      Double.Polygons.efficiency math_sin math_cos q = Ok k ->
      Double.Polygons.efficiency math_sin math_cos q' = Ok k' ->
      (k <? k')%float = false) ->
  Double.Polygons.max_efficiency_polygon math_sin math_cos s
  = Double.Polygons.__getitem__ s 0
  /\ Double.Polygons.__getitem__ s 0 = Ok (Double.Polygon.mk 3 R).
Proof.
  intros Hs Hall Hties. split.
  - apply max_efficiency_no_less; assumption.
  - apply double_Polygons_init_inv in Hs. destruct Hs as [Hm ->].
    apply double_members_first. exact Hm.
Qed.

Lemma X17_ties_return_first_witness :
  Double.Polygons.max_efficiency_polygon
    (lookup sin_table) (lookup cos_table)
    (Double.Polygons.mk 10 0x1.1ccf385ebc8ap+1023
       (double_members 10 0x1.1ccf385ebc8ap+1023))
  = Ok (Double.Polygon.mk 3 0x1.1ccf385ebc8ap+1023).
Proof.
  destruct (X17_ties_return_first (lookup sin_table) (lookup cos_table)
              10 0x1.1ccf385ebc8ap+1023
              (Double.Polygons.mk 10 0x1.1ccf385ebc8ap+1023
                 (double_members 10 0x1.1ccf385ebc8ap+1023))
              eq_refl
              ltac:(repeat constructor; eexists; vm_compute; reflexivity)
              ltac:(intros q q' k k' Hq Hq' Hk Hk';
                    rewrite (ratios_at_1e308 _ _ q Hq) in Hk;
                    rewrite (ratios_at_1e308 _ _ q' Hq') in Hk';
                    inversion Hk; inversion Hk'; reflexivity))
    as [Hmax Hfirst].
  rewrite Hmax. exact Hfirst.
Defined.

Open Scope float_scope.

Lemma eqb_zero_spec (x : float) :
  (x =? 0) = true <-> exists s, Prim2SF x = S754_zero s.
Proof.
  rewrite FloatAxioms.eqb_spec. unfold SFeqb.
  change (Prim2SF 0) with (S754_zero false).
  destruct (Prim2SF x) as [s | s | | s m e]; simpl; split.
  - intros _. exists s. reflexivity.
  - reflexivity.
  - destruct s; discriminate.
  - intros [s' H]. discriminate H.
  - discriminate.
  - intros [s' H]. discriminate H.
  - destruct s; discriminate.
  - intros [s' H]. discriminate H.
Qed.

Lemma mul_zero_l (x y : float) :
  (x =? 0) = true -> ~ unbounded y -> (x * y =? 0) = true.
Proof.
  rewrite !eqb_zero_spec, unbounded_spec, mul_spec. unfold SF64mul.
  intros [s Hx] Hy. rewrite Hx.
  destruct (Prim2SF y) as [sy | sy | | sy my ey]; simpl.
  - eexists. reflexivity.
  - exfalso. apply Hy. left. exists sy. reflexivity.
  - exfalso. apply Hy. right. reflexivity.
  - eexists. reflexivity.
Qed.

Lemma mul_zero_r (x y : float) :
  ~ unbounded x -> (y =? 0) = true -> (x * y =? 0) = true.
Proof.
  rewrite !eqb_zero_spec, unbounded_spec, mul_spec. unfold SF64mul.
  intros Hx [s Hy]. rewrite Hy.
  destruct (Prim2SF x) as [sx | sx | | sx mx ex]; simpl.
  - eexists. reflexivity.
  - exfalso. apply Hx. left. exists sx. reflexivity.
  - exfalso. apply Hx. right. reflexivity.
  - eexists. reflexivity.
Qed.

Lemma bounded_2 : ~ unbounded 2.
Proof.
  rewrite unbounded_spec. vm_compute.
  intros [[s H] | H]; discriminate H.
Qed.

Lemma bounded_3 : ~ unbounded 3.
Proof.
  rewrite unbounded_spec. vm_compute.
  intros [[s H] | H]; discriminate H.
Qed.

(** The triangle's ratio when the circumradius is zero: the perimeter
    is a zero and the division raises. *)
Lemma efficiency_zero_radius (math_sin math_cos : float -> float)
      (R : float) :
  (R =? 0) = true ->
  ~ unbounded (math_sin (Double.pi / 3)) ->
  Double.Polygons.efficiency math_sin math_cos (Double.Polygon.mk 3 R)
  = Raise ZeroDivisionError.
Proof.
  intros HR Hsin.
  unfold Double.Polygons.efficiency, Double.Polygon.area,
    Double.Polygon.perimeter, Double.Polygon.side_length,
    Double.Polygon.apothem, Double.Polygon.half_angle.
  cbn [Double.Polygon._n Double.Polygon._R].
  change (Double.float_of_int 3) with (Ok 3).
  change (Double.int_truediv 3 2) with (Ok 0x1.8p+0).
  cbn [bind].
  change (Double.float_truediv Double.pi 3) with (Ok (Double.pi / 3)).
  cbn [bind]. unfold Double.float_truediv.
  rewrite mul_zero_r; [reflexivity | exact bounded_3 |].
  apply mul_zero_l; [| exact Hsin].
  apply mul_zero_r; [exact bounded_2 | exact HR].
Qed.

Close Scope float_scope.

Lemma double_members_head (m : Z) (R : float) :
  (3 <= m)%Z ->
  exists rest, double_members m R = Double.Polygon.mk 3 R :: rest.
Proof.
  intros Hm.
  pose proof (double_members_nth m R 0 ltac:(simpl; lia)) as H.
  destruct (double_members m R) as [| q rest]; simpl in H;
    [discriminate H |].
  exists rest. congruence.
Qed.

(** X18: on a sequence constructed with circumradius [0.0] (or [-0.0])
    the efficiency query raises [ZeroDivisionError], provided
    [math.sin(math.pi / 3)] is finite: the triangle's perimeter is a
    zero. *)
Theorem X18_zero_radius (math_sin math_cos : float -> float)
        (m : Z) (R : float) (s : Double.Polygons.t) :
  Double.Polygons.__init__ m R = Ok s ->
  (R =? 0)%float = true ->
  ~ unbounded (math_sin (Double.pi / 3)%float) ->
  Double.Polygons.max_efficiency_polygon math_sin math_cos s
  = Raise ZeroDivisionError.
Proof.
  intros Hs HR Hsin. apply double_Polygons_init_inv in Hs.
  destruct Hs as [Hm ->].
  destruct (double_members_head m R Hm) as [rest Hrest].
  unfold Double.Polygons.max_efficiency_polygon, Double.sorted.
  cbn [Double.Polygons._polygons]. rewrite Hrest.
  cbn [comprehension].
  rewrite efficiency_zero_radius by assumption. reflexivity.
Qed.

Lemma X18_zero_radius_witness :
  Double.Polygons.max_efficiency_polygon
    (lookup sin_table) (lookup cos_table)
    (Double.Polygons.mk 4 0 (double_members 4 0))
  = Raise ZeroDivisionError.
Proof.
  apply (X18_zero_radius (lookup sin_table) (lookup cos_table) 4 0).
  - reflexivity.
  - vm_compute. reflexivity.
  - rewrite unbounded_spec. vm_compute.
    intros [[s H] | H]; discriminate H.
Defined.
